(** * AI-Research-Analyst: the request assembler and the response extractor

    A shallow embedding of [src/services/geminiService.ts], [src/utils.ts],
    [src/types.ts] and of the handlers of
    [src/components/ResearchInterface.tsx] ([handleSubmit],
    [handleFileUpload], [removeAttachment], the event handlers of the form),
    its "Web Sources" fallback list and [renderFormattedText].

    JavaScript strings are sequences of UTF-16 code units; they are modelled
    as lists of [N].  The built-ins the source relies on ([String.prototype.trim],
    [String.prototype.replace] with a string pattern, [String.prototype.match]
    with the regular expression of the source, [JSON.parse], [Array.isArray])
    are written out as executable functions. *)

From Stdlib Require Import String Ascii List NArith Bool Arith Lia.
Import ListNotations.

(* ================================================================= *)
(** ** JavaScript strings *)

Module JS.

Definition code_unit := N.
Definition jsstring := list code_unit.

Definition ch (a : ascii) : code_unit := N_of_ascii a.
Arguments ch _%_char : simpl never.

(** An ASCII literal as a JavaScript string. *)
Definition js (s : string) : jsstring := map N_of_ascii (list_ascii_of_string s).
Arguments js _%_string : simpl never.

(** A literal in which every apostrophe stands for a double quote (code unit
    34): for texts that hold double quotes and no apostrophe. *)
Definition jsq (s : string) : jsstring :=
  map (fun c => if N.eqb c 39 then 34%N else c) (js s).
Arguments jsq _%_string : simpl never.

Definition LF : code_unit := 10%N.
Definition DQUOTE : code_unit := 34%N.

Fixpoint eqb (a b : jsstring) : bool :=
  match a, b with
  | [], [] => true
  | x :: a', y :: b' => N.eqb x y && eqb a' b'
  | _, _ => false
  end.

(** WhiteSpace and LineTerminator of ECMA-262: the set [\s] of a regular
    expression matches and that [trim] strips. *)
Definition is_space (c : code_unit) : bool :=
  (N.eqb c 9 || N.eqb c 10 || N.eqb c 11 || N.eqb c 12 || N.eqb c 13
   || N.eqb c 32 || N.eqb c 160 || N.eqb c 5760
   || (N.leb 8192 c && N.leb c 8202)
   || N.eqb c 8232 || N.eqb c 8233 || N.eqb c 8239 || N.eqb c 8287
   || N.eqb c 12288 || N.eqb c 65279)%bool.

Fixpoint trimStart (s : jsstring) : jsstring :=
  match s with
  | c :: s' => if is_space c then trimStart s' else s
  | [] => []
  end.

Definition trimEnd (s : jsstring) : jsstring := rev (trimStart (rev s)).

(** [s.trim()] *)
Definition trim (s : jsstring) : jsstring := trimEnd (trimStart s).

(** [s.startsWith(p)] *)
Fixpoint startsWith (p s : jsstring) : bool :=
  match p, s with
  | [], _ => true
  | x :: p', y :: s' => N.eqb x y && startsWith p' s'
  | _ :: _, [] => false
  end.

(** [s.indexOf(p)], [None] for -1. *)
Fixpoint indexOf (p s : jsstring) : option nat :=
  if startsWith p s then Some 0
  else match s with
       | [] => None
       | _ :: s' => option_map S (indexOf p s')
       end.

(** [s.replace(p, r)] for a string pattern [p]: the first occurrence of [p]
    is replaced.  The replacement [r] is taken literally; the source only
    passes the empty string, which holds no [$] pattern. *)
Definition replace (p r s : jsstring) : jsstring :=
  match indexOf p s with
  | None => s
  | Some i => firstn i s ++ r ++ skipn (i + length p) s
  end.

(** [s.split(sep)] for a one-unit separator. *)
Fixpoint split_aux (sep : code_unit) (s cur : jsstring) : list jsstring :=
  match s with
  | [] => [rev cur]
  | c :: s' => if N.eqb c sep then rev cur :: split_aux sep s' []
               else split_aux sep s' (c :: cur)
  end.

Definition split (sep : code_unit) (s : jsstring) : list jsstring :=
  split_aux sep s [].

(** [a.filter((x, i) => f(x, i))], the index counted from [i]. *)
Fixpoint filter_from {A : Type} (f : A -> nat -> bool) (i : nat) (a : list A)
    : list A :=
  match a with
  | [] => []
  | x :: a' =>
      if f x i then x :: filter_from f (S i) a' else filter_from f (S i) a'
  end.

End JS.
Import JS.

(* ================================================================= *)
(** ** Regular expressions

    A backtracking matcher, in continuation-passing style, for the constructs
    the regular expression of the source is made of: literal text, a greedy
    or lazy star over a character class, one capturing group, sequence. *)

Module RegExp.

Inductive regex : Type :=
| Lit (p : jsstring)
| StarGreedy (cls : code_unit -> bool)
| StarLazy (cls : code_unit -> bool)
| Group (r : regex)
| Seq (r1 r2 : regex).

(** What a continuation receives: the text still to read and the capture of
    group 1 so far. *)
Definition Cont (R : Type) := jsstring -> option jsstring -> option R.

(** [cls*] then [k]: the longest run first, then shorter ones. *)
Fixpoint star_greedy {R} (cls : code_unit -> bool) (k : jsstring -> option R)
    (s : jsstring) : option R :=
  match s with
  | c :: s' =>
      if cls c then
        match star_greedy cls k s' with
        | Some r => Some r
        | None => k s
        end
      else k s
  | [] => k []
  end.

(** [cls*?] then [k]: the shortest run first, then longer ones. *)
Fixpoint star_lazy {R} (cls : code_unit -> bool) (k : jsstring -> option R)
    (s : jsstring) : option R :=
  match k s with
  | Some r => Some r
  | None =>
      match s with
      | c :: s' => if cls c then star_lazy cls k s' else None
      | [] => None
      end
  end.

Fixpoint run {R} (r : regex) (k : Cont R) (s : jsstring) (cap : option jsstring)
    : option R :=
  match r with
  | Lit p => if startsWith p s then k (skipn (length p) s) cap else None
  | StarGreedy cls => star_greedy cls (fun s' => k s' cap) s
  | StarLazy cls => star_lazy cls (fun s' => k s' cap) s
  | Group r' =>
      run r' (fun s' _ => k s' (Some (firstn (length s - length s') s))) s cap
  | Seq r1 r2 => run r1 (fun s' cap' => run r2 k s' cap') s cap
  end.

(** The result array of [String.prototype.match] without the [g] flag:
    [index], [match[0]] and [match[1]] ([None] for [undefined]). *)
Record MatchResult : Type := mkMatch {
  index : nat;
  m0 : jsstring;
  m1 : option jsstring
}.

(** A match of [r] starting at the head of [s]: what is left, and group 1. *)
Definition match_here (r : regex) (s : jsstring)
    : option (jsstring * option jsstring) :=
  run r (fun s' cap => Some (s', cap)) s None.

(** The start positions are tried from left to right, the end of the text
    included. *)
Fixpoint exec_from (r : regex) (i : nat) (s : jsstring) : option MatchResult :=
  match match_here r s with
  | Some (s', cap) => Some (mkMatch i (firstn (length s - length s') s) cap)
  | None =>
      match s with
      | [] => None
      | _ :: t => exec_from r (S i) t
      end
  end.

(** [s.match(r)] *)
Definition String_match (s : jsstring) (r : regex) : option MatchResult :=
  exec_from r 0 s.

Definition any (_ : code_unit) : bool := true.

(** [.] : any unit but a line terminator. *)
Definition dot (c : code_unit) : bool :=
  negb (N.eqb c 10 || N.eqb c 13 || N.eqb c 8232 || N.eqb c 8233)%bool.

(** [s.replace(r, ...)] for a regular expression with the [g] flag: the
    matches are replaced from left to right, each by [repl] of the match;
    after an empty match the search moves on by one unit.  [fuel] bounds the
    number of matches. *)
Fixpoint replace_all_fuel (fuel : nat) (r : regex)
    (repl : MatchResult -> jsstring) (s : jsstring) : jsstring :=
  match fuel with
  | O => s
  | S f =>
      match exec_from r 0 s with
      | None => s
      | Some m =>
          let before := firstn (index m) s in
          let after := skipn (index m + length (m0 m)) s in
          match m0 m with
          | [] =>
              match after with
              | [] => before ++ repl m
              | c :: t => before ++ repl m ++ c :: replace_all_fuel f r repl t
              end
          | _ :: _ => before ++ repl m ++ replace_all_fuel f r repl after
          end
      end
  end.

Definition replace_all (r : regex) (repl : MatchResult -> jsstring)
    (s : jsstring) : jsstring :=
  replace_all_fuel (S (length s)) r repl s.

End RegExp.
Import RegExp.

(* ================================================================= *)
(** ** JSON.parse *)

Module JSON.

(** The values [JSON.parse] builds.  A number keeps the text of its token:
    the double it denotes is not computed.  An object keeps its members in
    the order of the text. *)
#[warnings="-register-all"]
Inductive JSValue : Type :=
| JNull
| JBool (b : bool)
| JNumber (lexeme : jsstring)
| JString (s : jsstring)
| JArray (items : list JSValue)
| JObject (members : list (jsstring * JSValue)).

(** [Array.isArray] *)
Definition Array_isArray (v : JSValue) : bool :=
  match v with JArray _ => true | _ => false end.

Inductive result (A : Type) : Type :=
| POk (v : A) (rest : jsstring)
| PSyntaxError
| PFuel.
Arguments POk {A} v rest.
Arguments PSyntaxError {A}.
Arguments PFuel {A}.

(** JSON white space: tab, line feed, carriage return, space. *)
Definition is_json_ws (c : code_unit) : bool :=
  (N.eqb c 9 || N.eqb c 10 || N.eqb c 13 || N.eqb c 32)%bool.

Fixpoint skip_ws (s : jsstring) : jsstring :=
  match s with
  | c :: s' => if is_json_ws c then skip_ws s' else s
  | [] => []
  end.

Definition is_digit (c : code_unit) : bool := (N.leb 48 c && N.leb c 57)%bool.

Definition hex_digit (c : code_unit) : option N :=
  if (N.leb 48 c && N.leb c 57)%bool then Some (c - 48)%N
  else if (N.leb 65 c && N.leb c 70)%bool then Some (c - 55)%N
  else if (N.leb 97 c && N.leb c 102)%bool then Some (c - 87)%N
  else None.

Definition hex4 (a b c d : code_unit) : option code_unit :=
  match hex_digit a, hex_digit b, hex_digit c, hex_digit d with
  | Some x, Some y, Some z, Some w => Some (((x * 16 + y) * 16 + z) * 16 + w)%N
  | _, _, _, _ => None
  end.

(** The one-letter escapes of a JSON string. *)
Definition unescape (e : code_unit) : option code_unit :=
  if N.eqb e DQUOTE then Some DQUOTE
  else if N.eqb e (ch "\") then Some (ch "\")
  else if N.eqb e (ch "/") then Some (ch "/")
  else if N.eqb e (ch "b") then Some 8%N
  else if N.eqb e (ch "f") then Some 12%N
  else if N.eqb e (ch "n") then Some 10%N
  else if N.eqb e (ch "r") then Some 13%N
  else if N.eqb e (ch "t") then Some 9%N
  else None.

(** The characters of a string after its opening quote, up to and including
    the closing quote. *)
Fixpoint parse_chars (s acc : jsstring) : option (jsstring * jsstring) :=
  match s with
  | [] => None
  | c :: s' =>
      if N.eqb c DQUOTE then Some (rev acc, s')
      else if N.eqb c (ch "\") then
        match s' with
        | [] => None
        | e :: s'' =>
            if N.eqb e (ch "u") then
              match s'' with
              | h1 :: h2 :: h3 :: h4 :: s3 =>
                  match hex4 h1 h2 h3 h4 with
                  | Some u => parse_chars s3 (u :: acc)
                  | None => None
                  end
              | _ => None
              end
            else
              match unescape e with
              | Some u => parse_chars s'' (u :: acc)
              | None => None
              end
        end
      else if N.ltb c 32 then None
      else parse_chars s' (c :: acc)
  end.

Fixpoint span (p : code_unit -> bool) (s : jsstring) : jsstring * jsstring :=
  match s with
  | c :: s' => if p c then let (a, b) := span p s' in (c :: a, b) else ([], s)
  | [] => ([], [])
  end.

(** One or more digits. *)
Definition digits1 (s : jsstring) : option (jsstring * jsstring) :=
  match span is_digit s with
  | ([], _) => None
  | (d, r) => Some (d, r)
  end.

(** A number token: an optional minus sign; a zero, or a non-zero digit and
    any digits; an optional fraction (a dot and one or more digits); an
    optional exponent (e or E, an optional sign, one or more digits). *)
Definition parse_number (s : jsstring) : option (jsstring * jsstring) :=
  let (sign, s1) :=
    match s with
    | c :: t => if N.eqb c (ch "-") then ([c], t) else ([], s)
    | [] => ([], s)
    end in
  let int :=
    match s1 with
    | c :: t =>
        if N.eqb c (ch "0") then Some ([c], t)
        else if is_digit c then let (d, r) := span is_digit t in Some (c :: d, r)
        else None
    | [] => None
    end in
  match int with
  | None => None
  | Some (i, s2) =>
      let frac :=
        match s2 with
        | c :: t =>
            if N.eqb c (ch ".") then
              match digits1 t with
              | Some (d, r) => Some (c :: d, r)
              | None => None
              end
            else Some ([], s2)
        | [] => Some ([], s2)
        end in
      match frac with
      | None => None
      | Some (f, s3) =>
          let exp :=
            match s3 with
            | c :: t =>
                if (N.eqb c (ch "e") || N.eqb c (ch "E"))%bool then
                  let (sg, t') :=
                    match t with
                    | g :: u =>
                        if (N.eqb g (ch "+") || N.eqb g (ch "-"))%bool
                        then ([g], u) else ([], t)
                    | [] => ([], t)
                    end in
                  match digits1 t' with
                  | Some (d, r) => Some (c :: sg ++ d, r)
                  | None => None
                  end
                else Some ([], s3)
            | [] => Some ([], s3)
            end in
          match exp with
          | None => None
          | Some (e, s4) => Some (sign ++ i ++ f ++ e, s4)
          end
      end
  end.

(** [true], [false], [null] or a number. *)
Definition parse_atom (s : jsstring) : result JSValue :=
  if startsWith (js "true") s then POk (JBool true) (skipn 4 s)
  else if startsWith (js "false") s then POk (JBool false) (skipn 5 s)
  else if startsWith (js "null") s then POk JNull (skipn 4 s)
  else
    match parse_number s with
    | Some (lx, r) => POk (JNumber lx) r
    | None => PSyntaxError
    end.
Arguments parse_atom : simpl never.

(** Recursive descent.  [fuel] bounds the nesting of the calls; see
    [parse_value_fuel] for the bound that always suffices. *)
Fixpoint parse_value (fuel : nat) (s : jsstring) {struct fuel} : result JSValue :=
  match fuel with
  | O => PFuel
  | S f =>
      match skip_ws s with
      | [] => PSyntaxError
      | c :: s' =>
          if N.eqb c (ch "[") then
            match skip_ws s' with
            | d :: s'' =>
                if N.eqb d (ch "]") then POk (JArray []) s''
                else
                  match parse_elements f s' [] with
                  | POk l r => POk (JArray l) r
                  | PSyntaxError => PSyntaxError
                  | PFuel => PFuel
                  end
            | [] => PSyntaxError
            end
          else if N.eqb c (ch "{") then
            match skip_ws s' with
            | d :: s'' =>
                if N.eqb d (ch "}") then POk (JObject []) s''
                else
                  match parse_members f s' [] with
                  | POk l r => POk (JObject l) r
                  | PSyntaxError => PSyntaxError
                  | PFuel => PFuel
                  end
            | [] => PSyntaxError
            end
          else if N.eqb c DQUOTE then
            match parse_chars s' [] with
            | Some (str, r) => POk (JString str) r
            | None => PSyntaxError
            end
          else parse_atom (c :: s')
      end
  end

with parse_elements (fuel : nat) (s : jsstring) (acc : list JSValue)
    {struct fuel} : result (list JSValue) :=
  match fuel with
  | O => PFuel
  | S f =>
      match parse_value f s with
      | POk v r =>
          match skip_ws r with
          | d :: r' =>
              if N.eqb d (ch ",") then parse_elements f r' (v :: acc)
              else if N.eqb d (ch "]") then POk (rev (v :: acc)) r'
              else PSyntaxError
          | [] => PSyntaxError
          end
      | PSyntaxError => PSyntaxError
      | PFuel => PFuel
      end
  end

with parse_members (fuel : nat) (s : jsstring) (acc : list (jsstring * JSValue))
    {struct fuel} : result (list (jsstring * JSValue)) :=
  match fuel with
  | O => PFuel
  | S f =>
      match skip_ws s with
      | q :: s1 =>
          if N.eqb q DQUOTE then
            match parse_chars s1 [] with
            | Some (key, s2) =>
                match skip_ws s2 with
                | c :: s3 =>
                    if N.eqb c (ch ":") then
                      match parse_value f s3 with
                      | POk v r =>
                          match skip_ws r with
                          | d :: r' =>
                              if N.eqb d (ch ",")
                              then parse_members f r' ((key, v) :: acc)
                              else if N.eqb d (ch "}")
                              then POk (rev ((key, v) :: acc)) r'
                              else PSyntaxError
                          | [] => PSyntaxError
                          end
                      | PSyntaxError => PSyntaxError
                      | PFuel => PFuel
                      end
                    else PSyntaxError
                | [] => PSyntaxError
                end
            | None => PSyntaxError
            end
          else PSyntaxError
      | [] => PSyntaxError
      end
  end.

(** Fuel that is always enough for a text. *)
Definition fuel_for (s : jsstring) : nat := 2 * length s + 2.

(** [JSON.parse(s)]: [None] when it throws a [SyntaxError]. *)
Definition JSON_parse (s : jsstring) : option JSValue :=
  match parse_value (fuel_for s) s with
  | POk v rest =>
      match skip_ws rest with
      | [] => Some v
      | _ :: _ => None
      end
  | _ => None
  end.

End JSON.
Import JSON.

(* ================================================================= *)
(** ** [src/types.ts] *)

Inductive ModelMode : Type := fast | web | deep.

Inductive Role : Type := user | model.

Module Attachment.
(** [data] is typed [string]; at run time it is what
    [result.split(',')[1]] gave, [None] standing for [undefined]. *)
Record t : Type := mk {
  name : jsstring;
  mimeType : jsstring;
  data : option jsstring
}.
End Attachment.

Module WebSource.
Record t : Type := mk { uri : jsstring; title : jsstring }.
End WebSource.

Module GroundingChunk.
Record t : Type := mk { web : option WebSource.t }.
End GroundingChunk.

(** [Evidence] is a compile-time type only: the value stored is whatever
    [JSON.parse] built. *)
Definition Evidence := JSValue.

Module Message.
Record t : Type := mk {
  id : jsstring;
  role : Role;
  text : jsstring;
  attachments : option (list Attachment.t);
  groundingChunks : option (list GroundingChunk.t);
  evidence : option (list Evidence);
  timestamp : N
}.
End Message.

(* ================================================================= *)
(** ** The model API ([@google/genai]) *)

Inductive Part : Type :=
| TextPart (text : jsstring)
| InlineDataPart (mimeType : jsstring) (data : option jsstring).

Module Content.
Record t : Type := mk { role : Role; parts : list Part }.
End Content.

Inductive Tool : Type := googleSearch.

Module Request.
Record t : Type := mk {
  model : jsstring;
  contents : list Content.t;
  systemInstruction : jsstring;
  tools : option (list Tool)
}.
End Request.

Module GroundingMetadata.
Record t : Type := mk { groundingChunks : option (list GroundingChunk.t) }.
End GroundingMetadata.

Module Candidate.
Record t : Type := mk { groundingMetadata : option GroundingMetadata.t }.
End Candidate.

Module Response.
Record t : Type := mk {
  text : option jsstring;
  candidates : option (list Candidate.t)
}.
End Response.

(** What can be thrown. *)
Inductive JSError : Type :=
| ApiError (message : jsstring)
| ReadError (message : jsstring)
| SyntaxError.

(** [ai.models.generateContent]: the hosted model, which answers or throws. *)
Definition GoogleGenAI := Request.t -> JSError + Response.t.

(* ================================================================= *)
(** ** Effects

    What a call leaves behind: the requests sent to the model API and the
    lines written to the console. *)

Inductive LogEntry : Type :=
| console_warn (message : jsstring) (e : JSError)
| console_error (message : jsstring) (e : JSError).

Module World.
Record t : Type := mk {
  api_calls : list Request.t;
  console : list LogEntry
}.
Definition empty : t := mk [] [].
End World.

Inductive Outcome (A : Type) : Type :=
| Returned (a : A)
| Thrown (e : JSError).
Arguments Returned {A} a.
Arguments Thrown {A} e.

Definition M (A : Type) : Type := World.t -> Outcome A * World.t.

Definition ret {A} (a : A) : M A := fun w => (Returned a, w).

Definition throw {A} (e : JSError) : M A := fun w => (Thrown e, w).

Definition bind {A B} (m : M A) (f : A -> M B) : M B :=
  fun w =>
    match m w with
    | (Returned a, w') => f a w'
    | (Thrown e, w') => (Thrown e, w')
    end.

Definition try_catch {A} (m : M A) (h : JSError -> M A) : M A :=
  fun w =>
    match m w with
    | (Returned a, w') => (Returned a, w')
    | (Thrown e, w') => h e w'
    end.

Definition log (l : LogEntry) : M unit :=
  fun w => (Returned tt, World.mk (World.api_calls w) (World.console w ++ [l])).

(** [await ai.models.generateContent(req)] *)
Definition generateContent (ai : GoogleGenAI) (req : Request.t) : M Response.t :=
  fun w =>
    let w' := World.mk (World.api_calls w ++ [req]) (World.console w) in
    match ai req with
    | inr resp => (Returned resp, w')
    | inl e => (Thrown e, w')
    end.

Declare Scope js_scope.
Delimit Scope js_scope with js.
Notation "x <- m ;; f" := (bind m (fun x => f))
  (at level 61, m at next level, right associativity) : js_scope.
Notation "m ;;; f" := (bind m (fun _ => f))
  (at level 61, right associativity) : js_scope.
Open Scope js_scope.

(* ================================================================= *)
(** ** [src/services/geminiService.ts] *)

Definition instruction_base : jsstring :=
  js "You are a rigorous AI Research Analyst. Your core directive is **EVIDENCE-BASED SYNTHESIS**.

".

Definition instruction_fast : jsstring :=
  js "
**MODE: FAST ANALYSIS**
1. **PDF ANALYSIS**: If PDFs are provided, prioritize analyzing them and cite Page Numbers where possible.
2. **GENERAL KNOWLEDGE**: For general queries without documents, provide helpful, accurate answers based on your internal knowledge.
3. **TONE**: Professional, concise, and direct.
4. **FORMAT**: Use Markdown for headers and lists.
     ".

(** Written with [jsq]: each apostrophe below is a double quote in the
    source. *)
Definition instruction_strict : jsstring :=
  jsq "
**CRITICAL RULES:**
1.  **NO UNSOURCED CLAIMS**: Every single claim you make must be backed by a specific source (URL or PDF Page). If you cannot find a source, DO NOT state the claim.
2.  **PDF ANALYSIS**: When analyzing PDFs, you MUST cite the specific Page Number (e.g., 'Page 12').
3.  **WEB SEARCH**: Use Google Search to verify facts. Cite the specific URL.

**OUTPUT FORMAT:**
1.  Provide your analytical response in clear Markdown. Use inline citations like [1], [Page 5].
2.  **EVIDENCE GRAPH**: At the very end of your response, you MUST output a JSON block wrapped in ```json```. This block represents the 'Evidence Graph'.
    *   It must be an array of objects.
    *   Each object must have:
        *   `claim`: A concise string of the fact being stated.
        *   `sourceType`: 'web' or 'pdf'.
        *   `sourceName`: The filename (for PDFs) or Website Title (for Web).
        *   `sourceReference`: The full URL (for Web) or 'Page X' (for PDFs).

" ++ jsq "Example JSON Structure:
```json
[
  {
    'claim': 'The company revenue grew by 20% in Q3.',
    'sourceType': 'pdf',
    'sourceName': 'Q3_Report.pdf',
    'sourceReference': 'Page 14'
  },
  {
    'claim': 'Competitor X launched a similar product in 2023.',
    'sourceType': 'web',
    'sourceName': 'TechNews Daily',
    'sourceReference': 'https://technews.example.com/article'
  }
]
```

**TONE:**
Professional, objective, high-level executive summary style.
".

Definition getSystemInstruction (mode : ModelMode) : jsstring :=
  match mode with
  | fast => instruction_base ++ instruction_fast
  | _ => instruction_base ++ instruction_strict
  end.

Module ResponseResult.
Record t : Type := mk {
  text : jsstring;
  groundingChunks : list GroundingChunk.t;
  evidence : list Evidence
}.
End ResponseResult.

(** [historyContents] *)
Definition historyContents (history : list Message.t) : list Content.t :=
  map (fun msg => Content.mk (Message.role msg) [TextPart (Message.text msg)])
      history.

(** [currentParts]: what [attachments.forEach] pushes, then the prompt. *)
Definition currentParts (currentPrompt : jsstring)
    (attachments : list Attachment.t) : list Part :=
  flat_map
    (fun att =>
       [TextPart (js "[File Context: " ++ Attachment.name att ++ js "]");
        InlineDataPart (Attachment.mimeType att) (Attachment.data att)])
    attachments
  ++ [TextPart currentPrompt].

Definition modelName (mode : ModelMode) : jsstring :=
  match mode with
  | deep => js "gemini-3-pro-preview"
  | web => js "gemini-2.5-flash"
  | fast => js "gemini-2.5-flash"
  end.

Definition tools (mode : ModelMode) : option (list Tool) :=
  match mode with
  | deep => Some [googleSearch]
  | web => Some [googleSearch]
  | fast => None
  end.

(** The argument of [ai.models.generateContent] (lines 69 to 119). *)
Definition assembleRequest (currentPrompt : jsstring)
    (history : list Message.t) (attachments : list Attachment.t)
    (mode : ModelMode) : Request.t :=
  Request.mk (modelName mode)
    (historyContents history
     ++ [Content.mk user (currentParts currentPrompt attachments)])
    (getSystemInstruction mode)
    (tools mode).

(** [/```json\s*([\s\S]*?)\s*```/] *)
Definition jsonBlockRegex : regex :=
  Seq (Lit (js "```json"))
   (Seq (StarGreedy is_space)
    (Seq (Group (StarLazy any))
     (Seq (StarGreedy is_space)
      (Lit (js "```"))))).

(** [response.text || "No response generated."] *)
Definition fullText (response : Response.t) : jsstring :=
  match Response.text response with
  | None => js "No response generated."
  | Some [] => js "No response generated."
  | Some t => t
  end.

(** Lines 122 to 140: [(cleanText, evidence)] from [fullText].  The
    [SyntaxError] of [JSON.parse] is caught and logged. *)
Definition extractEvidence (fullText : jsstring) : M (jsstring * list Evidence) :=
  match String_match fullText jsonBlockRegex with
  | Some (mkMatch _ match0 (Some ((_ :: _) as match1))) =>
      match JSON_parse match1 with
      | Some parsed =>
          match parsed with
          | JArray items => ret (trim (replace match0 [] fullText), items)
          | _ => ret (fullText, [])
          end
      | None =>
          log (console_warn (js "Failed to parse Evidence Graph JSON") SyntaxError) ;;;
          ret (fullText, [])
      end
  | _ => ret (fullText, [])
  end.

(** Lines 142 to 148. *)
Definition extractGrounding (candidates : option (list Candidate.t))
    : list GroundingChunk.t :=
  match candidates with
  | Some (c0 :: _) =>
      match Candidate.groundingMetadata c0 with
      | Some gm =>
          match GroundingMetadata.groundingChunks gm with
          | Some chunks => chunks
          | None => []
          end
      | None => []
      end
  | _ => []
  end.

(** Lines 121 to 150: from the response of the API to the result. *)
Definition extractResponse (response : Response.t) : M ResponseResult.t :=
  ce <- extractEvidence (fullText response) ;;
  ret (ResponseResult.mk (fst ce)
         (extractGrounding (Response.candidates response)) (snd ce)).

Definition generateResearchResponse (ai : GoogleGenAI)
    (currentPrompt : jsstring) (history : list Message.t)
    (attachments : list Attachment.t) (mode : ModelMode)
    : M ResponseResult.t :=
  try_catch
    (response <- generateContent ai
                   (assembleRequest currentPrompt history attachments mode) ;;
     extractResponse response)
    (fun error =>
       log (console_error (js "Gemini API Error:") error) ;;;
       throw error).

(* ================================================================= *)
(** ** [src/utils.ts] *)

Module File.
(** A browser [File] as [processFiles] sees it: its [name], [type] and
    [size], and what a [FileReader] gets from [readAsDataURL]: the data URL
    ([onload]) or an error ([onerror]). *)
Record t : Type := mk {
  name : jsstring;
  type : jsstring;
  size : N;
  readAsDataURL : JSError + jsstring
}.
End File.

(** [result.split(',')[1]], [None] for [undefined]. *)
Definition fileToBase64 (file : File.t) : M (option jsstring) :=
  match File.readAsDataURL file with
  | inr result => ret (nth_error (split (ch ",") result) 1)
  | inl error => throw error
  end.

(** The [for] loop of [processFiles]. *)
Fixpoint processFiles_loop (files : list File.t) (attachments : list Attachment.t)
    : M (list Attachment.t) :=
  match files with
  | [] => ret attachments
  | file :: files' =>
      if JS.eqb (File.type file) (js "application/pdf") then
        attachments' <-
          try_catch
            (base64Data <- fileToBase64 file ;;
             ret (attachments
                  ++ [Attachment.mk (File.name file) (File.type file) base64Data]))
            (fun err =>
               log (console_error
                      (js "Failed to process file " ++ File.name file) err) ;;;
               ret attachments) ;;
        processFiles_loop files' attachments'
      else processFiles_loop files' attachments
  end.

(** [files] is [None] for [null]. *)
Definition processFiles (files : option (list File.t)) : M (list Attachment.t) :=
  match files with
  | None => ret []
  | Some fs => processFiles_loop fs []
  end.

(* ================================================================= *)
(** ** [src/components/ResearchInterface.tsx] *)

Module UI.

(** The state of the component that [handleSubmit] reads and sets. *)
Record State : Type := mkState {
  messages : list Message.t;
  input : jsstring;
  isLoading : bool;
  attachments : list Attachment.t;
  modelMode : ModelMode
}.

Definition apology : jsstring :=
  js "I apologize, but I encountered an error while processing your request. Please check your API key or connection and try again.".

(** [handleSubmit], from the state at the click to the state once the
    handler is over.  [id1], [now1] are what [uuidv4()] and [Date.now()]
    give for the message of the user, [id2], [now2] for the answer. *)
Definition handleSubmit (ai : GoogleGenAI) (id1 id2 : jsstring) (now1 now2 : N)
    (st : State) : M State :=
  if (match trim (input st) with [] => true | _ => false end
      && (length (attachments st) =? 0)
      || isLoading st)%bool
  then ret st
  else
    let currentAttachments := attachments st in
    let userMessageText := input st in
    let currentMode := modelMode st in
    let userMsg :=
      Message.mk id1 user userMessageText (Some currentAttachments)
        None None now1 in
    aiMsg <-
      try_catch
        (response <- generateResearchResponse ai userMessageText
                       (messages st) currentAttachments currentMode ;;
         ret (Message.mk id2 model (ResponseResult.text response) None
                (Some (ResponseResult.groundingChunks response))
                (Some (ResponseResult.evidence response)) now2))
        (fun error =>
           log (console_error (js "Error generating response") error) ;;;
           ret (Message.mk id2 model apology None None None now2)) ;;
    ret (mkState (messages st ++ [userMsg] ++ [aiMsg]) [] false [] (modelMode st)).

(** [handleFileUpload] *)
Definition handleFileUpload (files : option (list File.t)) (st : State)
    : M State :=
  match files with
  | Some _ =>
      newAttachments <- processFiles files ;;
      ret (mkState (messages st) (input st) (isLoading st)
             (attachments st ++ newAttachments) (modelMode st))
  | None => ret st
  end.

(** An anchor of the "Web Sources" list. *)
Record Anchor : Type := mkAnchor {
  href : jsstring;
  shown_title : jsstring;
  shown_uri : jsstring
}.

(** The children of the "Web Sources" grid of a message: [None] is the
    [null] React renders nothing for.  The grid is there only when the
    message has no evidence and at least one grounding chunk. *)
Definition webSources (msg : Message.t) : option (list (option Anchor)) :=
  match Message.evidence msg, Message.groundingChunks msg with
  | (None | Some []), Some (c :: cs) =>
      Some (map (fun chunk =>
                   match GroundingChunk.web chunk with
                   | Some wb =>
                       Some (mkAnchor (WebSource.uri wb) (WebSource.title wb)
                               (WebSource.uri wb))
                   | None => None
                   end) (c :: cs))
  | _, _ => None
  end.

(** The anchors on the screen. *)
Definition shownAnchors (msg : Message.t) : list Anchor :=
  match webSources msg with
  | Some children => flat_map (fun o => match o with Some a => [a] | None => [] end)
                       children
  | None => []
  end.

(** [removeAttachment] *)
Definition removeAttachment (index : nat) (st : State) : State :=
  mkState (messages st) (input st) (isLoading st)
    (filter_from (fun _ i => negb (i =? index)) 0 (attachments st))
    (modelMode st).

(** The [disabled] of the "Research" button. *)
Definition submitDisabled (st : State) : bool :=
  (isLoading st
   || (match trim (input st) with [] => true | _ => false end
       && (length (attachments st) =? 0)))%bool.

Definition welcome_text : jsstring :=
  js "### Insight Analyst
Welcome to Insight
I am your AI Research Analyst. I can help you with:
**Deep Web Research** with live citations
**PDF Analysis** for executive summaries
**Complex Synthesis** of multiple sources
How can I assist your research today?".

(** The state the component starts in; [now] is what [Date.now()] gives. *)
Definition initialState (now : N) : State :=
  mkState [Message.mk (js "welcome") model welcome_text None None None now]
    [] false [] web.

(** What the user can do to the state: type, press a key in the text area,
    pick files, remove a staged file, pick a mode, submit the form.  The
    theme, which nothing else reads, is left out. *)
Inductive Event : Type :=
| onChange (value : jsstring)
| onKeyDown (key : jsstring) (shiftKey : bool) (id1 id2 : jsstring) (now1 now2 : N)
| onFileChange (files : option (list File.t))
| onRemoveClick (idx : nat)
| onModeClick (mode : ModelMode)
| onSubmit (id1 id2 : jsstring) (now1 now2 : N).

Definition handle (ai : GoogleGenAI) (ev : Event) (st : State) : M State :=
  match ev with
  | onChange value =>
      ret (mkState (messages st) value (isLoading st) (attachments st)
             (modelMode st))
  | onKeyDown key shiftKey id1 id2 now1 now2 =>
      if (JS.eqb key (js "Enter") && negb shiftKey)%bool
      then handleSubmit ai id1 id2 now1 now2 st
      else ret st
  | onFileChange files => handleFileUpload files st
  | onRemoveClick idx => ret (removeAttachment idx st)
  | onModeClick mode =>
      ret (mkState (messages st) (input st) (isLoading st) (attachments st) mode)
  | onSubmit id1 id2 now1 now2 => handleSubmit ai id1 id2 now1 now2 st
  end.

(** A session: the events one after the other, each handled to its end
    before the next. *)
Fixpoint session (ai : GoogleGenAI) (evs : list Event) (st : State) : M State :=
  match evs with
  | [] => ret st
  | ev :: evs' => st' <- handle ai ev st ;; session ai evs' st'
  end.

(** What [renderFormattedText] returns for a line: the element and the
    text or the HTML put in it.  The class names, which are constants, are
    left out; the [key] of an element is its place in the list. *)
Inductive Element : Type :=
| h3 (text : jsstring)
| h2 (text : jsstring)
| h1 (text : jsstring)
| li (innerHTML : jsstring)
| spacer
| p (innerHTML : jsstring).

(** [/\*\*(.*?)\*\*/g] *)
Definition boldRegex : regex :=
  Seq (Lit (js "**")) (Seq (Group (StarLazy dot)) (Lit (js "**"))).

Definition group1 (m : MatchResult) : jsstring :=
  match m1 m with Some c => c | None => [] end.

(** ['<strong>$1</strong>'] *)
Definition strong (m : MatchResult) : jsstring :=
  js "<strong>" ++ group1 m ++ js "</strong>".

(** The replacement of a paragraph, which sets a class; written with
    [jsq]. *)
Definition strong_styled (m : MatchResult) : jsstring :=
  jsq "<strong class='text-slate-900 dark:text-sky-100 font-semibold break-words'>"
  ++ group1 m ++ js "</strong>".

(** [line.replace(/^[\*-]\s/, '')]: the expression matches at the head of
    the line only, one of [*] and [-] then one unit of white space. *)
Definition stripBullet (line : jsstring) : jsstring :=
  match line with
  | c :: d :: rest =>
      if ((N.eqb c (ch "*") || N.eqb c (ch "-")) && is_space d)%bool
      then rest else line
  | _ => line
  end.

Definition renderLine (line : jsstring) : Element :=
  if startsWith (js "### ") line then h3 (replace (js "### ") [] line)
  else if startsWith (js "## ") line then h2 (replace (js "## ") [] line)
  else if startsWith (js "# ") line then h1 (replace (js "# ") [] line)
  else if (startsWith (js "* ") (trim line)
           || startsWith (js "- ") (trim line))%bool
  then li (replace_all boldRegex strong (stripBullet line))
  else match trim line with
       | [] => spacer
       | _ :: _ => p (replace_all boldRegex strong_styled line)
       end.

(** [renderFormattedText] *)
Definition renderFormattedText (text : jsstring) : list Element :=
  map renderLine (split LF text).

End UI.

(* ================================================================= *)
(** * The vocabulary of the statements, and sample data *)

(** The text holds a fenced block, as [jsonBlockRegex] finds it, whose
    content [JSON.parse] turns into a list. *)
Definition list_block (t : jsstring) : bool :=
  match String_match t jsonBlockRegex with
  | Some m =>
      match m1 m with
      | Some c =>
          match JSON_parse c with
          | Some (JArray _) => true
          | _ => false
          end
      | None => false
      end
  | None => false
  end.

(** A response that carries the text [t] and no candidate. *)
Definition text_response (t : jsstring) : Response.t :=
  Response.mk (Some t) None.

(** The example of the specification: the answer, then a block of one item. *)
Definition spec_example : jsstring :=
  js "Answer." ++ [LF] ++ js "```json" ++ [LF]
  ++ jsq "[{'claim':'X','sourceType':'web','sourceName':'N','sourceReference':'http://u'}]"
  ++ [LF] ++ js "```".

(** What lies between its fences, white space apart. *)
Definition spec_example_content : jsstring :=
  jsq "[{'claim':'X','sourceType':'web','sourceName':'N','sourceReference':'http://u'}]".

(** What [String.prototype.match] returns on it. *)
Definition spec_example_match : MatchResult :=
  mkMatch 8
    (js "```json" ++ [LF] ++ spec_example_content ++ [LF] ++ js "```")
    (Some spec_example_content).

(** What [JSON.parse] makes of the content. *)
Definition spec_example_items : list Evidence :=
  [JObject [(js "claim", JString (js "X"));
            (js "sourceType", JString (js "web"));
            (js "sourceName", JString (js "N"));
            (js "sourceReference", JString (js "http://u"))]].

(** A text whose block is cut short: its content is not JSON. *)
Definition malformed_example : jsstring :=
  js "See below. " ++ js "```json" ++ [LF] ++ jsq "[{'claim':'X'" ++ [LF] ++ js "```".

(** What [String.prototype.match] returns on it. *)
Definition malformed_example_match : MatchResult :=
  mkMatch 11
    (js "```json" ++ [LF] ++ jsq "[{'claim':'X'" ++ [LF] ++ js "```")
    (Some (jsq "[{'claim':'X'")).

(** An API that answers every request with the same response. *)
Definition answering (resp : Response.t) : GoogleGenAI := fun _ => inr resp.


(** The two parts [attachments.forEach] pushes for an attachment. *)
Definition marker (att : Attachment.t) : Part :=
  TextPart (js "[File Context: " ++ Attachment.name att ++ js "]").

Definition payload (att : Attachment.t) : Part :=
  InlineDataPart (Attachment.mimeType att) (Attachment.data att).

(** What [historyContents] keeps of a turn. *)
Definition role_and_text (msg : Message.t) : Message.t :=
  Message.mk [] (Message.role msg) (Message.text msg) None None None 0.

(** The one type [processFiles] accepts. *)
Definition pdf : jsstring := js "application/pdf".

(** What [processFiles] makes of one file: an attachment when the type is
    the PDF type and the bytes are read, nothing otherwise. *)
Definition accepted (file : File.t) : list Attachment.t :=
  if JS.eqb (File.type file) pdf then
    match File.readAsDataURL file with
    | inr result =>
        [Attachment.mk (File.name file) (File.type file)
           (nth_error (split (ch ",") result) 1)]
    | inl _ => []
    end
  else [].

(** What it writes to the console for one file: a line when the type is the
    PDF type and reading fails, nothing otherwise. *)
Definition read_errors (file : File.t) : list LogEntry :=
  if JS.eqb (File.type file) pdf then
    match File.readAsDataURL file with
    | inr _ => []
    | inl err =>
        [console_error (js "Failed to process file " ++ File.name file) err]
    end
  else [].

(** Three files: a text file, a PDF of a terabyte, a PDF that cannot be
    read. *)
Definition notes_txt : File.t :=
  File.mk (js "notes.txt") (js "text/plain") 5
    (inr (js "data:text/plain;base64,aGVsbG8=")).

Definition big_pdf : File.t :=
  File.mk (js "big.pdf") pdf (2 ^ 40)
    (inr (js "data:application/pdf;base64,JVBERg==")).

Definition broken_pdf : File.t :=
  File.mk (js "broken.pdf") pdf 100 (inl (ReadError (js "NotReadableError"))).

(** The interface with three spaces typed and nothing staged. *)
Definition blank_state : UI.State :=
  UI.mkState [] (js "   ") false [] web.

(** The anchor the interface shows for a chunk, if any. *)
Definition anchor_of (chunk : GroundingChunk.t) : list UI.Anchor :=
  match GroundingChunk.web chunk with
  | Some wb => [UI.mkAnchor (WebSource.uri wb) (WebSource.title wb)
                  (WebSource.uri wb)]
  | None => []
  end.

(** An API that fails on every request. *)
Definition failing (e : JSError) : GoogleGenAI := fun _ => inl e.

(** No unit of the text is [sep]. *)
Definition lacks (sep : code_unit) (s : jsstring) : bool :=
  forallb (fun c => negb (N.eqb c sep)) s.

(** No unit of the text is a comma. *)
Definition no_comma (s : jsstring) : bool := lacks (ch ",") s.

(** A PDF whose reader gives a text with no comma in it. *)
Definition comma_less_pdf : File.t :=
  File.mk (js "empty.pdf") pdf 0 (inr (js "data:")).

(** The message [handleSubmit] makes of the input. *)
Definition userMessage (id1 : jsstring) (now1 : N) (st : UI.State) : Message.t :=
  Message.mk id1 user (UI.input st) (Some (UI.attachments st)) None None now1.

(** The message it shows when the call threw. *)
Definition apologyMessage (id2 : jsstring) (now2 : N) : Message.t :=
  Message.mk id2 model UI.apology None None None now2.

(** The state once a submission is over, [answer] being the last message. *)
Definition submitted (id1 : jsstring) (now1 : N) (st : UI.State)
    (answer : Message.t) : UI.State :=
  UI.mkState (UI.messages st ++ [userMessage id1 now1 st; answer]) [] false []
    (UI.modelMode st).

(** Every payload of the request is of the PDF type. *)
Definition only_pdf (req : Request.t) : Prop :=
  forall content mime data,
    In content (Request.contents req) ->
    In (InlineDataPart mime data) (Content.parts content) ->
    mime = pdf.

(** The first content is the welcome message, and the roles are [model],
    [user], [model], ... , [user]. *)
Definition starts_with_welcome (req : Request.t) : Prop :=
  exists rest k,
    Request.contents req
    = Content.mk model [TextPart UI.welcome_text] :: rest /\
    map Content.role (Request.contents req)
    = concat (repeat [model; user] (S k)).

(** The interface with a question typed. *)
Definition asking_state : UI.State :=
  UI.mkState (UI.messages (UI.initialState 0)) (js "What is new?") false [] web.

(** What every session keeps: the staged attachments are PDFs; the first
    message is the welcome message and the roles alternate; the requests
    sent hold PDFs only and start with the welcome message; there are two
    messages for each request sent, and the welcome message. *)
Definition session_invariant (st : UI.State) (w : World.t) : Prop :=
  Forall (fun att => Attachment.mimeType att = pdf) (UI.attachments st) /\
  (exists first rest k,
     UI.messages st = first :: rest /\
     Message.role first = model /\
     Message.text first = UI.welcome_text /\
     map Message.role (UI.messages st)
     = model :: concat (repeat [user; model] k)) /\
  Forall only_pdf (World.api_calls w) /\
  Forall starts_with_welcome (World.api_calls w) /\
  length (UI.messages st) = 1 + 2 * length (World.api_calls w).

(** No unit of the text is an asterisk. *)
Definition no_star (s : jsstring) : bool := lacks (ch "*") s.

(** No unit of the text is an asterisk or a line terminator. *)
Definition plain_phrase (s : jsstring) : bool :=
  forallb (fun c => dot c && negb (N.eqb c (ch "*")))%bool s.

(** A block of one well-formed item whose claim holds three backticks. *)
Definition backtick_content : jsstring :=
  jsq "[{'claim':'Use ``` to fence','sourceType':'web','sourceName':'N','sourceReference':'http://u'}]".

Definition backtick_example : jsstring :=
  js "Answer." ++ [LF] ++ js "```json" ++ [LF] ++ backtick_content ++ [LF]
  ++ js "```".

(** What [JSON.parse] makes of that content. *)
Definition backtick_items : list Evidence :=
  [JObject [(js "claim", JString (js "Use ``` to fence"));
            (js "sourceType", JString (js "web"));
            (js "sourceName", JString (js "N"));
            (js "sourceReference", JString (js "http://u"))]].

(** An empty fence, then the block of the example of the specification. *)
Definition late_block_example : jsstring :=
  js "Use " ++ js "```json" ++ js "```" ++ js " fences." ++ [LF]
  ++ js "```json" ++ [LF] ++ spec_example_content ++ [LF] ++ js "```".

(* ================================================================= *)
(** * Properties *)

(** ** Strings *)

Section StringFacts.

Lemma startsWith_app (p t : jsstring) : startsWith p (p ++ t) = true.
Proof.
  induction p as [|x p IH]; simpl; [reflexivity|].
  now rewrite N.eqb_refl, IH.
Qed.

Lemma startsWith_inv (p s : jsstring) :
  startsWith p s = true -> s = p ++ skipn (length p) s.
Proof.
  revert s; induction p as [|x p IH]; intros s H; simpl in *; [reflexivity|].
  destruct s as [|y s]; [discriminate|].
  apply andb_true_iff in H as [Hxy Hp].
  apply N.eqb_eq in Hxy; subst y.
  f_equal. now apply IH.
Qed.

Lemma startsWith_iff (p s : jsstring) :
  startsWith p s = true <-> exists t, s = p ++ t.
Proof.
  split.
  - intros H. eexists. now apply startsWith_inv.
  - intros [t ->]. apply startsWith_app.
Qed.

(** [indexOf] finds the leftmost occurrence. *)
Lemma indexOf_leftmost (p s : jsstring) (i : nat) :
  i <= length s ->
  startsWith p (skipn i s) = true ->
  (forall j, j < i -> startsWith p (skipn j s) = false) ->
  indexOf p s = Some i.
Proof.
  revert s; induction i as [|i IH]; intros s Hlen Hat Hbefore.
  - destruct s; simpl in *; now rewrite Hat.
  - destruct s as [|c s]; [simpl in Hlen; lia|].
    pose proof (Hbefore 0 (Nat.lt_0_succ i)) as H0. simpl skipn in H0.
    simpl indexOf. rewrite H0.
    rewrite (IH s); [reflexivity | simpl in Hlen; lia | exact Hat |].
    intros j Hj. apply (Hbefore (S j)). lia.
Qed.



End StringFacts.

(** ** The matcher *)

Section MatcherFacts.

Variable R : Type.

Lemma star_greedy_sound cls (k : jsstring -> option R) s r :
  star_greedy cls k s = Some r ->
  exists a b, s = a ++ b /\ forallb cls a = true /\ k b = Some r.
Proof.
  revert r; induction s as [|c s IH]; intros r H; simpl in H.
  - exists [], []. auto.
  - destruct (cls c) eqn:Hc.
    + destruct (star_greedy cls k s) as [r'|] eqn:Hs.
      * injection H as <-. destruct (IH _ eq_refl) as (a & b & -> & Ha & Hk).
        exists (c :: a), b. simpl. rewrite Hc, Ha. auto.
      * exists [], (c :: s). auto.
    + exists [], (c :: s). auto.
Qed.

Lemma star_lazy_sound cls (k : jsstring -> option R) s r :
  star_lazy cls k s = Some r ->
  exists a b, s = a ++ b /\ forallb cls a = true /\ k b = Some r.
Proof.
  revert r; induction s as [|c s IH]; intros r H; simpl in H.
  - destruct (k []) eqn:Hk; [|discriminate]. exists [], []. now injection H as <-.
  - destruct (k (c :: s)) eqn:Hk.
    + exists [], (c :: s). now injection H as <-.
    + destruct (cls c) eqn:Hc; [|discriminate].
      destruct (IH _ H) as (a & b & -> & Ha & Hb).
      exists (c :: a), b. simpl. rewrite Hc, Ha. auto.
Qed.

(** A star never makes its continuation fail where it would succeed on the
    whole text. *)
Lemma star_greedy_complete0 cls (k : jsstring -> option R) s :
  k s <> None -> star_greedy cls k s <> None.
Proof.
  intros Hk. destruct s as [|c s]; simpl; [exact Hk|].
  destruct (cls c); [|exact Hk].
  destruct (star_greedy cls k s); [discriminate | exact Hk].
Qed.

Lemma star_lazy_complete cls (k : jsstring -> option R) a b :
  forallb cls a = true -> k b <> None -> star_lazy cls k (a ++ b) <> None.
Proof.
  induction a as [|c a IH]; intros Ha Hk; simpl in *.
  - destruct b; simpl; destruct (k _); congruence.
  - apply andb_true_iff in Ha as [Hc Ha].
    destruct (k (c :: a ++ b)); [discriminate|].
    rewrite Hc. now apply IH.
Qed.

End MatcherFacts.

Section BlockFacts.

Lemma exec_from_spec r i0 s m :
  exec_from r i0 s = Some m ->
  exists n rest,
    index m = i0 + n /\ n <= length s /\
    (forall j, j < n -> match_here r (skipn j s) = None) /\
    match_here r (skipn n s) = Some (rest, m1 m) /\
    m0 m = firstn (length (skipn n s) - length rest) (skipn n s).
Proof.
  revert i0; induction s as [|c s IH]; intros i0 H; simpl in H.
  - destruct (match_here r []) as [[s' cap]|] eqn:E; [|discriminate].
    injection H as <-. exists 0, s'. simpl.
    repeat split; auto; try lia. all: intros j Hj; lia.
  - destruct (match_here r (c :: s)) as [[s' cap]|] eqn:E.
    + injection H as <-. exists 0, s'. simpl.
      repeat split; auto; try lia. all: intros j Hj; lia.
    + destruct (IH _ H) as (n & rest & Hi & Hn & Hbefore & Hat & Hm0).
      exists (S n), rest. simpl.
      repeat split; auto; try lia.
      intros [|j] Hj; [exact E|]. simpl. apply Hbefore. lia.
Qed.

(** The regular expression of the source, with its continuations laid out. *)
Lemma match_here_jsonBlock s :
  match_here jsonBlockRegex s =
  if startsWith (js "```json") s then
    star_greedy is_space
      (fun s1 =>
         star_lazy any
           (fun s2 =>
              star_greedy is_space
                (fun s3 =>
                   if startsWith (js "```") s3
                   then Some (skipn 3 s3, Some (firstn (length s1 - length s2) s1))
                   else None) s2) s1)
      (skipn 7 s)
  else None.
Proof. reflexivity. Qed.

Lemma firstn_app_minus (A : Type) (a b : list A) :
  firstn (length (a ++ b) - length b) (a ++ b) = a.
Proof.
  rewrite length_app, Nat.add_sub.
  rewrite firstn_app, Nat.sub_diag, firstn_all. simpl. apply app_nil_r.
Qed.

(** What a match at the head of [s] looks like: a fence, white space, the
    capture, white space, a closing fence. *)
Lemma match_here_shape s rest cap :
  match_here jsonBlockRegex s = Some (rest, cap) ->
  exists ws1 c ws2,
    s = js "```json" ++ ws1 ++ c ++ ws2 ++ js "```" ++ rest /\
    cap = Some c /\
    forallb is_space ws1 = true /\ forallb is_space ws2 = true.
Proof.
  rewrite match_here_jsonBlock.
  destruct (startsWith (js "```json") s) eqn:Hfence; [|discriminate].
  apply startsWith_inv in Hfence. change (length (js "```json")) with 7 in Hfence.
  intros H.
  apply star_greedy_sound in H as (ws1 & s1 & E1 & Hws1 & H).
  apply star_lazy_sound in H as (c & s2 & E2 & _ & H).
  apply star_greedy_sound in H as (ws2 & s3 & E3 & Hws2 & H).
  destruct (startsWith (js "```") s3) eqn:Hclose; [|discriminate].
  apply startsWith_inv in Hclose. change (length (js "```")) with 3 in Hclose.
  injection H as Hrest Hcap.
  exists ws1, c, ws2. repeat split; auto.
  - change (skipn 3 s3 = rest) in Hrest.
    rewrite <- Hrest, <- Hclose, <- E3, <- E2, <- E1. exact Hfence.
  - rewrite <- Hcap, E2. now rewrite firstn_app_minus.
Qed.

Lemma forallb_any (s : jsstring) : forallb any s = true.
Proof. induction s; simpl; auto. Qed.

(** Wherever an opening fence is followed, anywhere later, by a closing
    one, the regular expression matches. *)
Lemma match_here_exists x y :
  match_here jsonBlockRegex (js "```json" ++ x ++ js "```" ++ y) <> None.
Proof.
  rewrite match_here_jsonBlock, startsWith_app.
  change (skipn 7 (js "```json" ++ x ++ js "```" ++ y)) with (x ++ js "```" ++ y).
  apply star_greedy_complete0.
  apply star_lazy_complete; [apply forallb_any|].
  apply star_greedy_complete0.
  rewrite startsWith_app. discriminate.
Qed.

(** The match [String.prototype.match] returns: its shape, where it lies in
    the text, and that [indexOf] finds [match[0]] at [index] and nowhere
    before. *)
Lemma jsonBlock_found raw m :
  String_match raw jsonBlockRegex = Some m ->
  exists ws1 c ws2,
    m1 m = Some c /\
    m0 m = js "```json" ++ ws1 ++ c ++ ws2 ++ js "```" /\
    forallb is_space ws1 = true /\ forallb is_space ws2 = true /\
    raw = firstn (index m) raw ++ m0 m ++ skipn (index m + length (m0 m)) raw /\
    indexOf (m0 m) raw = Some (index m).
Proof.
  unfold String_match. intros H.
  apply exec_from_spec in H as (n & rest & Hi & Hn & Hbefore & Hat & Hm0).
  simpl in Hi. subst n.
  apply match_here_shape in Hat as (ws1 & c & ws2 & Hs & Hcap & Hws1 & Hws2).
  set (B := js "```json" ++ ws1 ++ c ++ ws2 ++ js "```").
  assert (Hs' : skipn (index m) raw = B ++ rest).
  { rewrite Hs. unfold B. now rewrite <- !app_assoc. }
  assert (HB : m0 m = B).
  { rewrite Hm0, Hs'. apply firstn_app_minus. }
  exists ws1, c, ws2. repeat split; auto.
  - rewrite HB, Nat.add_comm, <- skipn_skipn, Hs'.
    rewrite skipn_app, skipn_all, Nat.sub_diag, skipn_O, app_nil_l, <- Hs'.
    symmetry. apply firstn_skipn.
  - apply indexOf_leftmost; auto.
    + rewrite HB, Hs'. apply startsWith_app.
    + intros j Hj.
      destruct (startsWith (m0 m) (skipn j raw)) eqn:E; [|reflexivity].
      exfalso. apply startsWith_iff in E as [t Ht].
      specialize (Hbefore j Hj).
      rewrite Ht, HB in Hbefore. unfold B in Hbefore.
      apply (match_here_exists (ws1 ++ c ++ ws2) t).
      rewrite <- !app_assoc in *. exact Hbefore.
Qed.

End BlockFacts.

(** ** Which texts the regular expression matches, and where *)

Section Exactness.

Variable R : Type.

(** The greedy star hands its longest run to the continuation first. *)
Lemma star_greedy_exact cls (k : jsstring -> option R) a b r :
  forallb cls a = true ->
  match b with [] => True | y :: _ => cls y = false end ->
  k b = Some r ->
  star_greedy cls k (a ++ b) = Some r.
Proof.
  intros Ha Hb Hk. induction a as [|x a IH]; simpl in *.
  - destruct b as [|y b]; [exact Hk|]. simpl. now rewrite Hb.
  - apply andb_true_iff in Ha as [Hx Ha]. now rewrite Hx, (IH Ha).
Qed.

(** The lazy star stops at the first place where the continuation succeeds. *)
Lemma star_lazy_exact cls (k : jsstring -> option R) a b r :
  forallb cls a = true ->
  k b = Some r ->
  (forall a1 a2, a = a1 ++ a2 -> a2 <> [] -> k (a2 ++ b) = None) ->
  star_lazy cls k (a ++ b) = Some r.
Proof.
  revert r; induction a as [|x a IH]; intros r Ha Hk Hmin.
  - simpl. destruct b; simpl; now rewrite Hk.
  - simpl in Ha. apply andb_true_iff in Ha as [Hx Ha].
    pose proof (Hmin [] (x :: a) eq_refl ltac:(discriminate)) as H0.
    simpl in H0 |- *. rewrite H0, Hx.
    apply IH; auto.
    intros a1 a2 -> Hne. apply (Hmin (x :: a1) a2 eq_refl Hne).
Qed.

End Exactness.

Section TrimFacts.

Lemma trimStart_split s :
  exists ws, s = ws ++ trimStart s /\ forallb is_space ws = true.
Proof.
  induction s as [|c s (ws & E & H)]; [now exists []|]. simpl.
  destruct (is_space c) eqn:Hc.
  - exists (c :: ws). simpl. rewrite Hc, H. split; [now f_equal | reflexivity].
  - now exists [].
Qed.

Lemma trimStart_head s :
  match trimStart s with [] => True | y :: _ => is_space y = false end.
Proof.
  induction s as [|c s IH]; simpl; [exact I|].
  destruct (is_space c) eqn:Hc; [exact IH | exact Hc].
Qed.

Lemma forallb_rev (p : code_unit -> bool) l : forallb p (rev l) = forallb p l.
Proof.
  induction l as [|x l IH]; [reflexivity|].
  simpl. rewrite forallb_app, IH. simpl. rewrite andb_true_r. apply andb_comm.
Qed.

Lemma trimEnd_split s :
  exists ws, s = trimEnd s ++ ws /\ forallb is_space ws = true.
Proof.
  unfold trimEnd. destruct (trimStart_split (rev s)) as (ws & E & H).
  exists (rev ws). split; [|now rewrite forallb_rev].
  rewrite <- rev_app_distr, <- E. symmetry. apply rev_involutive.
Qed.

Lemma trimEnd_last s t z : trimEnd s = t ++ [z] -> is_space z = false.
Proof.
  unfold trimEnd. intros H.
  apply (f_equal (@rev _)) in H. rewrite rev_involutive, rev_app_distr in H.
  simpl in H. pose proof (trimStart_head (rev s)) as Hh. now rewrite H in Hh.
Qed.

(** A text is white space, its trimmed text, white space. *)
Lemma trim_split s :
  exists ws1 ws2,
    s = ws1 ++ trim s ++ ws2 /\
    forallb is_space ws1 = true /\ forallb is_space ws2 = true /\
    match trim s ++ ws2 with [] => True | y :: _ => is_space y = false end.
Proof.
  destruct (trimStart_split s) as (ws1 & E1 & H1).
  destruct (trimEnd_split (trimStart s)) as (ws2 & E2 & H2).
  exists ws1, ws2. unfold trim. rewrite <- E2.
  repeat split; auto. apply trimStart_head.
Qed.

End TrimFacts.

Section Completeness.

Lemma exec_from_at r : forall n s i0 rest cap,
  (forall j, j < n -> match_here r (skipn j s) = None) ->
  match_here r (skipn n s) = Some (rest, cap) ->
  n <= length s ->
  exec_from r i0 s
  = Some (mkMatch (i0 + n)
            (firstn (length (skipn n s) - length rest) (skipn n s)) cap).
Proof.
  induction n as [|n IH]; intros s i0 rest cap Hbefore Hat Hn.
  - simpl in Hat. rewrite Nat.add_0_r.
    destruct s; simpl exec_from; rewrite Hat; reflexivity.
  - destruct s as [|c s]; [simpl in Hn; lia|].
    pose proof (Hbefore 0 (Nat.lt_0_succ n)) as H0. simpl skipn in H0.
    simpl exec_from. rewrite H0.
    rewrite (IH s (S i0) rest cap); [now rewrite Nat.add_succ_r | | exact Hat |].
    + intros j Hj. apply (Hbefore (S j)). lia.
    + simpl in Hn. lia.
Qed.

Lemma not_space_backtick : is_space (ch "`") = false.
Proof. reflexivity. Qed.

(** The end of the regular expression, [\s*```], on white space, the
    closing fence and the rest. *)
Lemma closing_fence_matches (cap : option jsstring) ws post :
  forallb is_space ws = true ->
  star_greedy is_space
    (fun s3 => if startsWith (js "```") s3 then Some (skipn 3 s3, cap) else None)
    (ws ++ js "```" ++ post)
  = Some (post, cap).
Proof.
  intros Hws. apply star_greedy_exact; [exact Hws | reflexivity |].
  rewrite startsWith_app. reflexivity.
Qed.

(** A text [body] between an opening fence and a closing fence, the opening
    one the first of the text and the closing one the first after it: the
    regular expression matches there, the whole block, and captures
    [trim body]. *)
Lemma fenced_block_is_matched pre body post :
  let raw := pre ++ js "```json" ++ body ++ js "```" ++ post in
  (forall j, j < length pre -> startsWith (js "```json") (skipn j raw) = false) ->
  (forall j, j < length body ->
     startsWith (js "```") (skipn j (body ++ js "```" ++ post)) = false) ->
  String_match raw jsonBlockRegex
  = Some (mkMatch (length pre) (js "```json" ++ body ++ js "```")
            (Some (trim body))).
Proof.
  intros raw Hpre Hbody.
  destruct (trim_split body) as (ws1 & ws2 & E & Hws1 & Hws2 & Hhead).
  set (c := trim body) in *.
  assert (Hat : match_here jsonBlockRegex (skipn (length pre) raw)
                = Some (post, Some c)).
  { unfold raw. rewrite skipn_app, skipn_all, Nat.sub_diag, skipn_O.
    rewrite app_nil_l, match_here_jsonBlock, startsWith_app.
    change (skipn 7 (js "```json" ++ body ++ js "```" ++ post))
      with (body ++ js "```" ++ post).
    rewrite E at 1. rewrite <- !app_assoc.
    apply star_greedy_exact; auto.
    { destruct (c ++ ws2) eqn:Ecw; rewrite app_assoc, Ecw; [reflexivity|].
      exact Hhead. }
    assert (Ecap : firstn (length (c ++ ws2 ++ js "```" ++ post)
                           - length (ws2 ++ js "```" ++ post))
                     (c ++ ws2 ++ js "```" ++ post) = c)
      by apply firstn_app_minus.
    apply star_lazy_exact.
    - apply forallb_any.
    - rewrite Ecap. now apply closing_fence_matches.
    - intros a1 a2 Ec Hne.
      match goal with |- ?k = None => destruct k as [[rest' cap']|] eqn:Hk end;
        [exfalso | reflexivity].
      apply star_greedy_sound in Hk as (w & s3 & Es & Hw & Hk).
      destruct (startsWith (js "```") s3) eqn:Hs3; [|discriminate].
      apply app_eq_app in Es as [l [[Ea Eb] | [Ea Eb]]].
      + (* the white space ends inside [a2]: a fence inside [body] *)
        destruct l as [|y l].
        * rewrite app_nil_r in Ea. subst w.
          destruct (exists_last Hne) as (t & z & Ez).
          assert (Hz : is_space z = false).
          { apply (trimEnd_last (trimStart body) (a1 ++ t)).
            fold (trim body). fold c. rewrite Ec, Ez. now rewrite app_assoc. }
          rewrite Ez, forallb_app in Hw. simpl in Hw.
          rewrite Hz in Hw. rewrite andb_false_r in Hw. discriminate.
        * specialize (Hbody (length (ws1 ++ a1 ++ w))).
          rewrite E, Ec, Ea in Hbody.
          rewrite <- !app_assoc in Hbody.
          replace (ws1 ++ a1 ++ w ++ (y :: l) ++ ws2 ++ js "```" ++ post)
            with ((ws1 ++ a1 ++ w) ++ (y :: l) ++ ws2 ++ js "```" ++ post)
            in Hbody by now rewrite <- !app_assoc.
          rewrite skipn_app, skipn_all, Nat.sub_diag, skipn_O in Hbody.
          rewrite app_nil_l in Hbody.
          rewrite Eb in Hs3. rewrite Hs3 in Hbody.
          assert (Hlt : length (ws1 ++ a1 ++ w)
                        < length (ws1 ++ a1 ++ w ++ (y :: l) ++ ws2)).
          { rewrite !length_app. simpl. lia. }
          specialize (Hbody Hlt). discriminate.
      + (* the white space covers [a2], whose last unit is not white space *)
        destruct (exists_last Hne) as (t & z & Ez).
        assert (Hz : is_space z = false).
        { apply (trimEnd_last (trimStart body) (a1 ++ t)).
          fold (trim body). fold c. rewrite Ec, Ez. now rewrite app_assoc. }
        rewrite Ea, Ez, !forallb_app in Hw. simpl in Hw.
        rewrite Hz in Hw. simpl in Hw. rewrite andb_false_r in Hw.
        discriminate. }
  unfold String_match.
  rewrite (exec_from_at jsonBlockRegex (length pre) raw 0 post (Some c)); auto.
  - simpl. f_equal. f_equal.
    unfold raw. rewrite skipn_app, skipn_all, Nat.sub_diag, skipn_O.
    rewrite app_nil_l.
    replace (js "```json" ++ body ++ js "```" ++ post)
      with ((js "```json" ++ body ++ js "```") ++ post)
      by now rewrite <- !app_assoc.
    apply firstn_app_minus.
  - intros j Hj. rewrite match_here_jsonBlock, (Hpre j Hj). reflexivity.
  - unfold raw. rewrite length_app. lia.
Qed.

End Completeness.

(** ** [JSON.parse] always comes to an end *)

Section ParserFacts.

Lemma skip_ws_length s : length (skip_ws s) <= length s.
Proof.
  induction s as [|c s IH]; simpl; [lia|].
  destruct (is_json_ws c); simpl; lia.
Qed.

Lemma skip_ws_cons s c s' : skip_ws s = c :: s' -> length s' < length s.
Proof. intros H. pose proof (skip_ws_length s) as L. rewrite H in L. simpl in L. lia. Qed.

Lemma span_length p s a b : span p s = (a, b) -> length b <= length s.
Proof.
  revert a b; induction s as [|c s IH]; intros a b H; simpl in H.
  - injection H as <- <-. simpl; lia.
  - destruct (p c).
    + destruct (span p s) as [a' b'] eqn:E. injection H as <- <-.
      specialize (IH _ _ eq_refl). simpl; lia.
    + injection H as <- <-. simpl; lia.
Qed.

Lemma digits1_length s d r : digits1 s = Some (d, r) -> length r <= length s.
Proof.
  unfold digits1. destruct (span is_digit s) as [a b] eqn:E.
  apply span_length in E. destruct a; [discriminate|].
  intros H; injection H as <- <-. exact E.
Qed.

Lemma parse_chars_shorter_aux n : forall s, length s <= n -> forall acc x r,
  parse_chars s acc = Some (x, r) -> length r < length s.
Proof.
  induction n as [|n IH]; intros s Hle acc x r H.
  - destruct s; [simpl in H; discriminate | simpl in Hle; lia].
  - destruct s as [|c s]; [simpl in H; discriminate|]. simpl in Hle, H.
    destruct (N.eqb c DQUOTE).
    { injection H as <- <-. simpl; lia. }
    destruct (N.eqb c (ch "\")).
    + destruct s as [|e s]; [discriminate|].
      destruct (N.eqb e (ch "u")).
      * destruct s as [|h1 [|h2 [|h3 [|h4 s]]]]; try discriminate.
        destruct (hex4 h1 h2 h3 h4); [|discriminate].
        apply IH in H; simpl in *; lia.
      * destruct (unescape e); [|discriminate].
        apply IH in H; simpl in *; lia.
    + destruct (N.ltb c 32); [discriminate|].
      apply IH in H; simpl in *; lia.
Qed.

Lemma parse_chars_shorter s acc x r :
  parse_chars s acc = Some (x, r) -> length r < length s.
Proof. apply (parse_chars_shorter_aux (length s)). lia. Qed.

Lemma parse_number_shorter s lx r :
  parse_number s = Some (lx, r) -> length r < length s.
Proof.
  unfold parse_number.
  set (sg := match s with
             | c :: t => if N.eqb c (ch "-") then ([c], t) else ([], s)
             | [] => ([], s)
             end).
  assert (Hsg : length (snd sg) <= length s).
  { unfold sg. destruct s as [|c t]; simpl; [lia|].
    destruct (N.eqb c (ch "-")); simpl; lia. }
  destruct sg as [sign s1]. simpl in Hsg.
  destruct s1 as [|c t]; [discriminate|].
  assert (Hint :
    forall i s2,
      (if N.eqb c (ch "0") then Some ([c], t)
       else if is_digit c
            then let (d, r0) := span is_digit t in Some (c :: d, r0)
            else None) = Some (i, s2) -> length s2 < length s).
  { intros i s2 H. simpl in Hsg.
    destruct (N.eqb c (ch "0")); [injection H as <- <-; lia|].
    destruct (is_digit c); [|discriminate].
    destruct (span is_digit t) as [d r0] eqn:E. apply span_length in E.
    injection H as <- <-. lia. }
  destruct (if N.eqb c (ch "0") then _ else _) as [[i s2]|]; [|discriminate].
  specialize (Hint _ _ eq_refl).
  set (frac := match s2 with
               | c0 :: t0 => _
               | [] => _
               end).
  assert (Hfrac : forall f s3, frac = Some (f, s3) -> length s3 <= length s2).
  { unfold frac. intros f s3 H. destruct s2 as [|c0 t0].
    - injection H as <- <-. lia.
    - destruct (N.eqb c0 (ch ".")).
      + destruct (digits1 t0) as [[d r0]|] eqn:E; [|discriminate].
        apply digits1_length in E. injection H as <- <-. simpl; lia.
      + injection H as <- <-. lia. }
  destruct frac as [[f s3]|]; [|discriminate].
  specialize (Hfrac _ _ eq_refl).
  set (exp := match s3 with
              | c0 :: t0 => _
              | [] => _
              end).
  assert (Hexp : forall e s4, exp = Some (e, s4) -> length s4 <= length s3).
  { unfold exp. intros e s4 H. destruct s3 as [|c0 t0].
    - injection H as <- <-. lia.
    - destruct (N.eqb c0 (ch "e") || N.eqb c0 (ch "E"))%bool.
      + set (sg := match t0 with
                   | g :: u => _
                   | [] => _
                   end) in H.
        assert (Hsg' : length (snd sg) <= length t0).
        { unfold sg. destruct t0 as [|g u]; simpl; [lia|].
          destruct (N.eqb g (ch "+") || N.eqb g (ch "-"))%bool; simpl; lia. }
        destruct sg as [sg0 t']. simpl in Hsg'.
        destruct (digits1 t') as [[d r0]|] eqn:E; [|discriminate].
        apply digits1_length in E. injection H as <- <-. simpl; lia.
      + injection H as <- <-. lia. }
  destruct exp as [[e s4]|]; [|discriminate].
  specialize (Hexp _ _ eq_refl).
  intros H; injection H as <- <-. lia.
Qed.

Lemma skipn_shorter (A : Type) n (l : list A) :
  0 < n -> l <> [] -> length (skipn n l) < length l.
Proof.
  intros Hn Hl. rewrite length_skipn. destruct l; [congruence|].
  cbn [length]; lia.
Qed.

Lemma parse_atom_shorter s v r :
  parse_atom s = POk v r -> length r < length s.
Proof.
  unfold parse_atom.
  destruct (startsWith (js "true") s) eqn:Et.
  { intros H; injection H as <- <-. apply (@skipn_shorter _ 4 s); [lia|].
    intros ->. discriminate. }
  destruct (startsWith (js "false") s) eqn:Ef.
  { intros H; injection H as <- <-. apply (@skipn_shorter _ 5 s); [lia|].
    intros ->. discriminate. }
  destruct (startsWith (js "null") s) eqn:En.
  { intros H; injection H as <- <-. apply (@skipn_shorter _ 4 s); [lia|].
    intros ->. discriminate. }
  destruct (parse_number s) as [[lx r0]|] eqn:E; [|discriminate].
  apply parse_number_shorter in E. intros H; injection H as <- <-. exact E.
Qed.

Lemma parse_atom_fuel s : parse_atom s <> PFuel.
Proof.
  unfold parse_atom.
  repeat match goal with
         | |- context [if ?b then _ else _] => destruct b; [discriminate|]
         end.
  destruct (parse_number s) as [[lx r0]|]; discriminate.
Qed.

(** A value, a run of elements, a run of members: each reads at least one
    code unit. *)
Lemma parse_decreases fuel :
  (forall s v r, parse_value fuel s = POk v r -> length r < length s) /\
  (forall s acc l r, parse_elements fuel s acc = POk l r -> length r < length s) /\
  (forall s acc l r, parse_members fuel s acc = POk l r -> length r < length s).
Proof.
  induction fuel as [|f (IHv & IHe & IHm)];
    [repeat split; intros; discriminate|].
  repeat split.
  - intros s v r H. simpl in H.
    destruct (skip_ws s) as [|c s'] eqn:Hws; [discriminate|].
    pose proof (skip_ws_cons _ _ _ Hws) as L.
    destruct (N.eqb c (ch "[")).
    { destruct (skip_ws s') as [|d s''] eqn:Hws'; [discriminate|].
      pose proof (skip_ws_cons _ _ _ Hws') as L'.
      destruct (N.eqb d (ch "]")); [injection H as <- <-; lia|].
      destruct (parse_elements f s' []) as [l r0| |] eqn:E; try discriminate.
      apply IHe in E. injection H as <- <-. lia. }
    destruct (N.eqb c (ch "{")).
    { destruct (skip_ws s') as [|d s''] eqn:Hws'; [discriminate|].
      pose proof (skip_ws_cons _ _ _ Hws') as L'.
      destruct (N.eqb d (ch "}")); [injection H as <- <-; lia|].
      destruct (parse_members f s' []) as [l r0| |] eqn:E; try discriminate.
      apply IHm in E. injection H as <- <-. lia. }
    destruct (N.eqb c DQUOTE).
    { destruct (parse_chars s' []) as [[str r0]|] eqn:E; [|discriminate].
      apply parse_chars_shorter in E. injection H as <- <-. lia. }
    apply parse_atom_shorter in H. simpl in H. lia.
  - intros s acc l r H. simpl in H.
    destruct (parse_value f s) as [v r0| |] eqn:E; try discriminate.
    apply IHv in E.
    destruct (skip_ws r0) as [|d r'] eqn:Hws; [discriminate|].
    pose proof (skip_ws_cons _ _ _ Hws) as L.
    destruct (N.eqb d (ch ",")).
    { apply IHe in H. lia. }
    destruct (N.eqb d (ch "]")); [|discriminate].
    injection H as <- <-. lia.
  - intros s acc l r H. simpl in H.
    destruct (skip_ws s) as [|q s1] eqn:Hws; [discriminate|].
    pose proof (skip_ws_cons _ _ _ Hws) as L.
    destruct (N.eqb q DQUOTE); [|discriminate].
    destruct (parse_chars s1 []) as [[key s2]|] eqn:Ek; [|discriminate].
    apply parse_chars_shorter in Ek.
    destruct (skip_ws s2) as [|c s3] eqn:Hws2; [discriminate|].
    pose proof (skip_ws_cons _ _ _ Hws2) as L2.
    destruct (N.eqb c (ch ":")); [|discriminate].
    destruct (parse_value f s3) as [v r0| |] eqn:E; try discriminate.
    apply IHv in E.
    destruct (skip_ws r0) as [|d r'] eqn:Hws3; [discriminate|].
    pose proof (skip_ws_cons _ _ _ Hws3) as L3.
    destruct (N.eqb d (ch ",")).
    { apply IHm in H. lia. }
    destruct (N.eqb d (ch "}")); [|discriminate].
    injection H as <- <-. lia.
Qed.

(** With two units of fuel for each code unit, the parser never stops for
    lack of fuel. *)
Lemma parse_enough_fuel fuel :
  (forall s, 2 * length s + 1 <= fuel -> parse_value fuel s <> PFuel) /\
  (forall s acc, 2 * length s + 2 <= fuel -> parse_elements fuel s acc <> PFuel) /\
  (forall s acc, 2 * length s + 2 <= fuel -> parse_members fuel s acc <> PFuel).
Proof.
  induction fuel as [|f (IHv & IHe & IHm)]; [repeat split; intros; lia|].
  repeat split.
  - intros s Hf. simpl.
    destruct (skip_ws s) as [|c s'] eqn:Hws; [discriminate|].
    pose proof (skip_ws_cons _ _ _ Hws) as L.
    destruct (N.eqb c (ch "[")).
    { destruct (skip_ws s') as [|d s''] eqn:Hws'; [discriminate|].
      destruct (N.eqb d (ch "]")); [discriminate|].
      specialize (IHe s' [] ltac:(lia)).
      destruct (parse_elements f s' []); congruence. }
    destruct (N.eqb c (ch "{")).
    { destruct (skip_ws s') as [|d s''] eqn:Hws'; [discriminate|].
      destruct (N.eqb d (ch "}")); [discriminate|].
      specialize (IHm s' [] ltac:(lia)).
      destruct (parse_members f s' []); congruence. }
    destruct (N.eqb c DQUOTE).
    { destruct (parse_chars s' []) as [[str r0]|]; discriminate. }
    apply parse_atom_fuel.
  - intros s acc Hf. simpl.
    specialize (IHv s ltac:(lia)).
    destruct (parse_value f s) as [v r0| |] eqn:E; try congruence.
    apply (proj1 (parse_decreases f)) in E.
    destruct (skip_ws r0) as [|d r'] eqn:Hws; [discriminate|].
    pose proof (skip_ws_cons _ _ _ Hws) as L.
    destruct (N.eqb d (ch ",")); [apply IHe; lia|].
    destruct (N.eqb d (ch "]")); discriminate.
  - intros s acc Hf. simpl.
    destruct (skip_ws s) as [|q s1] eqn:Hws; [discriminate|].
    pose proof (skip_ws_cons _ _ _ Hws) as L.
    destruct (N.eqb q DQUOTE); [|discriminate].
    destruct (parse_chars s1 []) as [[key s2]|] eqn:Ek; [|discriminate].
    apply parse_chars_shorter in Ek.
    destruct (skip_ws s2) as [|c s3] eqn:Hws2; [discriminate|].
    pose proof (skip_ws_cons _ _ _ Hws2) as L2.
    destruct (N.eqb c (ch ":")); [|discriminate].
    specialize (IHv s3 ltac:(lia)).
    destruct (parse_value f s3) as [v r0| |] eqn:E; try congruence.
    apply (proj1 (parse_decreases f)) in E.
    destruct (skip_ws r0) as [|d r'] eqn:Hws3; [discriminate|].
    pose proof (skip_ws_cons _ _ _ Hws3) as L3.
    destruct (N.eqb d (ch ",")); [apply IHm; lia|].
    destruct (N.eqb d (ch "}")); discriminate.
Qed.

(** [JSON_parse] answers [None] only for a syntax error: the fuel it gives
    the parser is enough for every text. *)
Lemma JSON_parse_fuel s : parse_value (fuel_for s) s <> PFuel.
Proof. apply (proj1 (parse_enough_fuel (fuel_for s))). unfold fuel_for. lia. Qed.

Lemma JSON_parse_empty : JSON_parse [] = None.
Proof. reflexivity. Qed.

End ParserFacts.

(* ================================================================= *)
(** * The response extractor *)

Section ExtractorFacts.

Lemma fullText_nonempty response raw :
  Response.text response = Some raw -> raw <> [] -> fullText response = raw.
Proof. unfold fullText. intros ->. destruct raw; [congruence | reflexivity]. Qed.

Lemma fullText_placeholder response :
  Response.text response = None \/ Response.text response = Some [] ->
  fullText response = js "No response generated.".
Proof. unfold fullText. intros [-> | ->]; reflexivity. Qed.

Lemma match_nonempty raw m : String_match raw jsonBlockRegex = Some m -> raw <> [].
Proof. intros H ->. discriminate. Qed.

Lemma placeholder_no_block :
  String_match (js "No response generated.") jsonBlockRegex = None.
Proof. vm_compute. reflexivity. Qed.

(** The block is found and its content parses to a list: the items are the
    evidence, and the text is the trimmed rest. *)
Lemma extractEvidence_list raw m c items w :
  String_match raw jsonBlockRegex = Some m ->
  m1 m = Some c ->
  JSON_parse c = Some (JArray items) ->
  extractEvidence raw w =
  (Returned (trim (firstn (index m) raw ++ skipn (index m + length (m0 m)) raw),
             items), w).
Proof.
  intros Hm Hc Hp.
  destruct (jsonBlock_found _ _ Hm) as (ws1 & c' & ws2 & _ & _ & _ & _ & _ & Hidx).
  unfold extractEvidence. rewrite Hm.
  destruct m as [i b cap]. simpl in *. subst cap.
  destruct c as [|x c]; [rewrite JSON_parse_empty in Hp; discriminate|].
  rewrite Hp. unfold replace. rewrite Hidx. reflexivity.
Qed.

(** Every other case: the text is kept whole and there is no evidence; at
    most a warning is written. *)
Lemma extractEvidence_kept t w :
  list_block t = false ->
  exists w',
    extractEvidence t w = (Returned (t, []), w') /\
    World.api_calls w' = World.api_calls w.
Proof.
  unfold list_block, extractEvidence.
  destruct (String_match t jsonBlockRegex) as [[i b [[|x c]|]]|];
    simpl; try (intros _; exists w; split; reflexivity).
  destruct (JSON_parse (x :: c)) as [[]|]; try discriminate;
    intros _; try (exists w; split; reflexivity).
  eexists. split; reflexivity.
Qed.

Lemma extractResponse_evidence response w :
  extractResponse response w =
  match extractEvidence (fullText response) w with
  | (Returned ce, w') =>
      (Returned (ResponseResult.mk (fst ce)
                   (extractGrounding (Response.candidates response)) (snd ce)),
       w')
  | (Thrown e, w') => (Thrown e, w')
  end.
Proof. reflexivity. Qed.

(** When the API answers, the call sends one request and hands the answer
    to the extractor. *)
Lemma generateResearchResponse_answered ai prompt history attachments mode w resp :
  ai (assembleRequest prompt history attachments mode) = inr resp ->
  generateResearchResponse ai prompt history attachments mode w =
  try_catch (extractResponse resp)
    (fun error => log (console_error (js "Gemini API Error:") error) ;;; throw error)
    (World.mk (World.api_calls w
               ++ [assembleRequest prompt history attachments mode])
       (World.console w)).
Proof.
  intros H. unfold generateResearchResponse, try_catch, bind, generateContent.
  rewrite H. reflexivity.
Qed.

End ExtractorFacts.

(** C1, as amended.  When the block the extractor finds in the text of the
    response ([m]: the first opening fence, white space, the content [c],
    white space, the first closing fence after it) has a content that
    parses to a list of N items, the extractor returns exactly these N
    items as evidence, and as text the raw text with the block cut out and
    the white space around the result trimmed.  Nothing is logged and
    nothing is thrown. *)
Theorem valid_block_is_extracted (response : Response.t) (raw : jsstring)
    (m : MatchResult) (c : jsstring) (items : list Evidence) (w : World.t) :
  Response.text response = Some raw ->
  String_match raw jsonBlockRegex = Some m ->
  m1 m = Some c ->
  JSON_parse c = Some (JArray items) ->
  exists r,
    extractResponse response w = (Returned r, w) /\
    ResponseResult.evidence r = items /\
    length (ResponseResult.evidence r) = length items /\
    (exists ws1 ws2,
       m0 m = js "```json" ++ ws1 ++ c ++ ws2 ++ js "```" /\
       forallb is_space ws1 = true /\ forallb is_space ws2 = true) /\
    raw = firstn (index m) raw ++ m0 m ++ skipn (index m + length (m0 m)) raw /\
    ResponseResult.text r =
      trim (firstn (index m) raw ++ skipn (index m + length (m0 m)) raw).
Proof.
  intros Ht Hm Hc Hp.
  rewrite extractResponse_evidence.
  rewrite (fullText_nonempty _ _ Ht (match_nonempty _ _ Hm)).
  rewrite (extractEvidence_list _ _ _ _ w Hm Hc Hp).
  eexists. split; [reflexivity|]. simpl.
  destruct (jsonBlock_found _ _ Hm)
    as (ws1 & c' & ws2 & Hc' & Hm0 & Hws1 & Hws2 & Hraw & _).
  assert (c' = c) as -> by congruence.
  repeat split; auto. exists ws1, ws2. auto.
Qed.

Lemma valid_block_is_extracted_witness :
  exists r,
    extractResponse (text_response spec_example) World.empty
      = (Returned r, World.empty) /\
    ResponseResult.evidence r = spec_example_items /\
    length (ResponseResult.evidence r) = 1 /\
    (exists ws1 ws2,
       m0 spec_example_match
       = js "```json" ++ ws1 ++ spec_example_content ++ ws2 ++ js "```" /\
       forallb is_space ws1 = true /\ forallb is_space ws2 = true) /\
    spec_example = js "Answer." ++ [LF] ++ m0 spec_example_match ++ [] /\
    ResponseResult.text r = js "Answer.".
Proof.
  exact (valid_block_is_extracted (text_response spec_example) spec_example
           spec_example_match spec_example_content spec_example_items
           World.empty eq_refl eq_refl eq_refl eq_refl).
Defined.

(** The same in terms of the text alone: before the block [pre], in which
    no opening fence starts; between the fences [body], in which no closing
    fence starts; after the block [post]. *)
Corollary fenced_block_roundtrip (response : Response.t)
    (pre body post : jsstring) (items : list Evidence) (w : World.t) :
  let raw := pre ++ js "```json" ++ body ++ js "```" ++ post in
  Response.text response = Some raw ->
  (forall j, j < length pre -> startsWith (js "```json") (skipn j raw) = false) ->
  (forall j, j < length body ->
     startsWith (js "```") (skipn j (body ++ js "```" ++ post)) = false) ->
  JSON_parse (trim body) = Some (JArray items) ->
  extractResponse response w
  = (Returned (ResponseResult.mk (trim (pre ++ post))
                 (extractGrounding (Response.candidates response)) items), w).
Proof.
  intros raw Ht Hpre Hbody Hp.
  pose proof (fenced_block_is_matched pre body post Hpre Hbody) as Hm.
  fold raw in Hm.
  rewrite extractResponse_evidence.
  rewrite (fullText_nonempty _ _ Ht (match_nonempty _ _ Hm)).
  rewrite (extractEvidence_list _ _ _ _ w Hm eq_refl Hp).
  cbn [index m0 fst snd].
  repeat f_equal.
  - unfold raw. rewrite firstn_app, firstn_all, Nat.sub_diag, firstn_O.
    apply app_nil_r.
  - unfold raw.
    replace (pre ++ js "```json" ++ body ++ js "```" ++ post)
      with ((pre ++ js "```json" ++ body ++ js "```") ++ post)
      by now rewrite <- !app_assoc.
    rewrite skipn_app.
    replace (length pre + length (js "```json" ++ body ++ js "```"))
      with (length (pre ++ js "```json" ++ body ++ js "```"))
      by now rewrite length_app.
    rewrite skipn_all, Nat.sub_diag, skipn_O. reflexivity.
Qed.

(** The example of the specification, through [fenced_block_roundtrip]. *)
Example spec_example_roundtrip :
  extractResponse (text_response spec_example) World.empty
  = (Returned (ResponseResult.mk (js "Answer.") [] spec_example_items),
     World.empty).
Proof.
  apply (fenced_block_roundtrip (text_response spec_example)
           (js "Answer." ++ [LF]) ([LF] ++ spec_example_content ++ [LF]) []
           spec_example_items World.empty).
  - reflexivity.
  - intros j Hj. repeat (destruct j as [|j]; [reflexivity|]).
    exfalso. vm_compute in Hj. lia.
  - intros j Hj. repeat (destruct j as [|j]; [reflexivity|]).
    exfalso. vm_compute in Hj. lia.
  - reflexivity.
Qed.

(** C1 as it is stated fails on a valid block whose content holds three
    backticks inside a string: the text is an answer, an opening fence, a
    content that parses to a list of one well-formed item, a closing fence;
    yet the regular expression stops at the backticks of the claim, what it
    captures is not JSON, and the extractor returns no evidence and the text
    as it came, with one warning. *)
Lemma block_with_backticks_is_not_extracted :
  backtick_example
  = (js "Answer." ++ [LF]) ++ js "```json" ++ ([LF] ++ backtick_content ++ [LF])
    ++ js "```" ++ [] /\
  JSON_parse ([LF] ++ backtick_content ++ [LF]) = Some (JArray backtick_items) /\
  length backtick_items = 1 /\
  extractResponse (text_response backtick_example) World.empty
  = (Returned (ResponseResult.mk backtick_example [] []),
     World.mk []
       [console_warn (js "Failed to parse Evidence Graph JSON") SyntaxError]).
Proof. repeat split. Qed.

(** It also fails on a valid block that comes after another opening fence:
    the extractor finds the first fence, here an empty one, and looks no
    further. *)
Lemma block_after_a_fence_is_not_extracted :
  late_block_example
  = (js "Use " ++ js "```json" ++ js "```" ++ js " fences." ++ [LF])
    ++ js "```json" ++ ([LF] ++ spec_example_content ++ [LF]) ++ js "```" ++ [] /\
  JSON_parse ([LF] ++ spec_example_content ++ [LF])
  = Some (JArray spec_example_items) /\
  extractResponse (text_response late_block_example) World.empty
  = (Returned (ResponseResult.mk late_block_example [] []), World.empty).
Proof. repeat split. Qed.

(** C2, as amended.  For a non-empty text of the response: when no fenced
    json block is found, or one is found and its content does not parse, or
    parses to something that is not a list, the extractor returns (it never
    throws) no evidence and the text as it came, block included.  It calls
    nothing; at most it writes a warning to the console. *)
Theorem unparsed_block_is_kept (response : Response.t) (raw : jsstring)
    (w : World.t) :
  Response.text response = Some raw ->
  raw <> [] ->
  (String_match raw jsonBlockRegex = None \/
   exists m c,
     String_match raw jsonBlockRegex = Some m /\ m1 m = Some c /\
     (JSON_parse c = None \/
      exists v, JSON_parse c = Some v /\ Array_isArray v = false)) ->
  exists r w',
    extractResponse response w = (Returned r, w') /\
    ResponseResult.text r = raw /\
    ResponseResult.evidence r = [] /\
    World.api_calls w' = World.api_calls w.
Proof.
  intros Ht Hne Hcase.
  assert (Hlb : list_block raw = false).
  { unfold list_block.
    destruct Hcase as [-> | (m & c & -> & -> & [-> | (v & -> & Hv)])]; auto. }
  destruct (extractEvidence_kept raw w Hlb) as (w' & He & Hcalls).
  rewrite extractResponse_evidence, (fullText_nonempty _ _ Ht Hne), He.
  eexists; eexists. repeat split; auto.
Qed.

Lemma unparsed_block_is_kept_witness :
  exists r w',
    extractResponse (text_response malformed_example) World.empty
      = (Returned r, w') /\
    ResponseResult.text r = malformed_example /\
    ResponseResult.evidence r = [] /\
    World.api_calls w' = [].
Proof.
  apply (unparsed_block_is_kept (text_response malformed_example)
           malformed_example World.empty).
  - reflexivity.
  - discriminate.
  - right. exists malformed_example_match, (jsq "[{'claim':'X'").
    repeat split. left. reflexivity.
Defined.

(** C2 as it is stated fails on the empty text: no block is present, and the
    text returned is the placeholder, not the raw input. *)
Lemma empty_text_is_replaced :
  String_match [] jsonBlockRegex = None /\
  extractResponse (text_response []) World.empty
  = (Returned (ResponseResult.mk (js "No response generated.") [] []),
     World.empty) /\
  js "No response generated." <> [].
Proof. repeat split. discriminate. Qed.

(** C10.  The API answers, with no text or with the empty text: the result
    holds the text "No response generated." and no evidence. *)
Theorem empty_response_placeholder (ai : GoogleGenAI) (currentPrompt : jsstring)
    (history : list Message.t) (attachments : list Attachment.t)
    (mode : ModelMode) (w : World.t) (resp : Response.t) :
  ai (assembleRequest currentPrompt history attachments mode) = inr resp ->
  Response.text resp = None \/ Response.text resp = Some [] ->
  exists r w',
    generateResearchResponse ai currentPrompt history attachments mode w
      = (Returned r, w') /\
    ResponseResult.text r = js "No response generated." /\
    ResponseResult.evidence r = [].
Proof.
  intros Hai Ht.
  rewrite (generateResearchResponse_answered _ _ _ _ _ _ _ Hai).
  unfold try_catch. rewrite extractResponse_evidence.
  rewrite (fullText_placeholder _ Ht).
  unfold extractEvidence. rewrite placeholder_no_block.
  eexists; eexists. repeat split.
Qed.

Lemma empty_response_placeholder_witness :
  exists r w',
    generateResearchResponse (answering (Response.mk None None))
      (js "hello") [] [] fast World.empty = (Returned r, w') /\
    ResponseResult.text r = js "No response generated." /\
    ResponseResult.evidence r = [].
Proof.
  apply (empty_response_placeholder (answering (Response.mk None None))
           (js "hello") [] [] fast World.empty (Response.mk None None)).
  - reflexivity.
  - left. reflexivity.
Defined.

Section SecondRun.

Lemma list_block_true t :
  list_block t = true ->
  exists m c items,
    String_match t jsonBlockRegex = Some m /\ m1 m = Some c /\
    JSON_parse c = Some (JArray items).
Proof.
  unfold list_block.
  destruct (String_match t jsonBlockRegex) as [m|]; [|discriminate].
  destruct (m1 m) as [c|] eqn:Hc; [|discriminate].
  destruct (JSON_parse c) as [[]|] eqn:Hp; try discriminate.
  intros _. exists m, c, items. repeat split; assumption.
Qed.



End SecondRun.




(** It also fails on a text that is nothing but a block: the first run
    returns the empty text, which the second run replaces. *)
Lemma second_run_replaces_empty_text :
  extractResponse (text_response (js "```json[]```")) World.empty
  = (Returned (ResponseResult.mk [] [] []), World.empty) /\
  extractResponse (text_response []) World.empty
  = (Returned (ResponseResult.mk (js "No response generated.") [] []),
     World.empty).
Proof. split; reflexivity. Qed.

(* ================================================================= *)
(** * The request assembler *)

Section AssemblerFacts.

(** The one request a call sends. *)
Lemma generateResearchResponse_sends ai prompt history attachments mode w :
  World.api_calls
    (snd (generateResearchResponse ai prompt history attachments mode w))
  = World.api_calls w ++ [assembleRequest prompt history attachments mode].
Proof.
  unfold generateResearchResponse, try_catch, bind, generateContent.
  destruct (ai (assembleRequest prompt history attachments mode)) as [e|resp].
  - reflexivity.
  - rewrite extractResponse_evidence. unfold extractEvidence.
    destruct (String_match (fullText resp) jsonBlockRegex)
      as [[i b [[|x c]|]]|]; try reflexivity.
    destruct (JSON_parse (x :: c)) as [[]|]; reflexivity.
Qed.

Lemma currentParts_cons prompt att atts :
  currentParts prompt (att :: atts)
  = marker att :: payload att :: currentParts prompt atts.
Proof. reflexivity. Qed.

Lemma currentParts_length prompt atts :
  length (currentParts prompt atts) = 2 * length atts + 1.
Proof.
  induction atts as [|att atts IH]; [reflexivity|].
  rewrite currentParts_cons. simpl length. rewrite IH. lia.
Qed.

(** The marker of the i-th attachment is the part 2i, its payload the part
    2i+1. *)
Lemma currentParts_nth prompt atts : forall i att,
  nth_error atts i = Some att ->
  nth_error (currentParts prompt atts) (2 * i) = Some (marker att) /\
  nth_error (currentParts prompt atts) (2 * i + 1) = Some (payload att).
Proof.
  induction atts as [|a atts IH]; intros [|i] att H; try discriminate.
  - injection H as <-. split; reflexivity.
  - rewrite currentParts_cons.
    replace (2 * S i) with (S (S (2 * i))) by lia.
    simpl in H. destruct (IH _ _ H) as [Hm Hp]. split; assumption.
Qed.

Lemma currentParts_last prompt atts :
  nth_error (currentParts prompt atts) (2 * length atts) = Some (TextPart prompt).
Proof.
  induction atts as [|a atts IH]; [reflexivity|].
  rewrite currentParts_cons.
  replace (2 * length (a :: atts)) with (S (S (2 * length atts)))
    by (simpl; lia).
  exact IH.
Qed.

Lemma currentParts_inline prompt atts mime data :
  In (InlineDataPart mime data) (currentParts prompt atts) ->
  exists att, In att atts /\ Attachment.mimeType att = mime
              /\ Attachment.data att = data.
Proof.
  induction atts as [|a atts IH].
  - intros [H | []]. discriminate.
  - rewrite currentParts_cons. intros [H | [H | H]].
    + discriminate.
    + injection H as <- <-. exists a. repeat split. now left.
    + destruct (IH H) as (att & Hin & Hm & Hd).
      exists att. repeat split; auto. now right.
Qed.

End AssemblerFacts.

(** C5.  The request a call sends holds, by mode: no tools for [fast], the
    search tool for [web] and [deep]; the model [gemini-3-pro-preview] for
    [deep] and [gemini-2.5-flash] for [web] and [fast]. *)
Theorem mode_selects_model_and_tools (ai : GoogleGenAI) (currentPrompt : jsstring)
    (history : list Message.t) (attachments : list Attachment.t)
    (mode : ModelMode) (w : World.t) :
  let req := assembleRequest currentPrompt history attachments mode in
  World.api_calls
    (snd (generateResearchResponse ai currentPrompt history attachments mode w))
  = World.api_calls w ++ [req] /\
  Request.tools req
  = match mode with
    | fast => None
    | web => Some [googleSearch]
    | deep => Some [googleSearch]
    end /\
  Request.model req
  = match mode with
    | deep => js "gemini-3-pro-preview"
    | web => js "gemini-2.5-flash"
    | fast => js "gemini-2.5-flash"
    end /\
  js "gemini-3-pro-preview" <> js "gemini-2.5-flash".
Proof.
  intros req. split; [apply generateResearchResponse_sends|].
  destruct mode; repeat split; discriminate.
Qed.

(** C7.  The contents of the request start with one entry for each prior
    turn, in order, holding the role of the turn and one part, its text.
    Nothing else of a turn reaches the request: with the attachments, the
    evidence and the grounding chunks of every turn erased, the request is
    the same. *)
Theorem history_keeps_role_and_text (currentPrompt : jsstring)
    (history : list Message.t) (attachments : list Attachment.t)
    (mode : ModelMode) :
  let req := assembleRequest currentPrompt history attachments mode in
  length (Request.contents req) = S (length history) /\
  firstn (length history) (Request.contents req)
  = map (fun msg => Content.mk (Message.role msg) [TextPart (Message.text msg)])
      history /\
  req = assembleRequest currentPrompt (map role_and_text history) attachments mode.
Proof.
  intros req. unfold req, assembleRequest. simpl.
  assert (Hlen : length (historyContents history) = length history)
    by apply length_map.
  repeat split.
  - rewrite length_app, Hlen. simpl. lia.
  - rewrite <- Hlen, firstn_app, Nat.sub_diag, firstn_all. simpl.
    apply app_nil_r.
  - f_equal. f_equal. unfold historyContents. rewrite map_map. reflexivity.
Qed.

(* ================================================================= *)
(** * File ingestion *)

Section IngestionFacts.

Lemma eqb_eq (a b : jsstring) : JS.eqb a b = true <-> a = b.
Proof.
  revert b; induction a as [|x a IH]; intros [|y b]; simpl;
    try (split; [discriminate | intros H; discriminate H]); [tauto|].
  rewrite andb_true_iff, N.eqb_eq, IH.
  split; [intros [-> ->]; reflexivity | intros H; injection H; auto].
Qed.

Lemma processFiles_loop_spec files : forall attachments w,
  processFiles_loop files attachments w
  = (Returned (attachments ++ flat_map accepted files),
     World.mk (World.api_calls w)
       (World.console w ++ flat_map read_errors files)).
Proof.
  induction files as [|file files IH]; intros attachments w.
  - simpl. rewrite !app_nil_r. destruct w; reflexivity.
  - simpl processFiles_loop. simpl flat_map.
    unfold accepted at 1, read_errors at 1. fold pdf.
    destruct (JS.eqb (File.type file) pdf); [|apply IH].
    unfold bind, try_catch, fileToBase64, ret, throw, log.
    destruct (File.readAsDataURL file) as [err|result]; rewrite IH; simpl.
    + now rewrite <- app_assoc.
    + now rewrite <- app_assoc.
Qed.

Lemma accepted_pdf files :
  Forall (fun att => Attachment.mimeType att = pdf) (flat_map accepted files).
Proof.
  induction files as [|file files IH]; simpl; [constructor|].
  apply Forall_app. split; [|exact IH].
  unfold accepted. destruct (JS.eqb (File.type file) pdf) eqn:E; [|constructor].
  apply eqb_eq in E.
  destruct (File.readAsDataURL file); repeat constructor. exact E.
Qed.

End IngestionFacts.

(** C6.  For every batch of files and every prompt, also the empty one:
    [processFiles] returns the attachments of the accepted files, in the
    order of the batch, all of the PDF type; the last content of the request
    built from them is the turn of the user; its parts are, for the i-th
    attachment, the marker with the name of the file at 2i and the payload
    at 2i+1, then the prompt as the last part; no payload of another type
    is among them. *)
Theorem accepted_files_in_order (files : list File.t) (currentPrompt : jsstring)
    (history : list Message.t) (mode : ModelMode) (w : World.t) :
  exists atts w',
    processFiles (Some files) w = (Returned atts, w') /\
    atts = flat_map accepted files /\
    let req := assembleRequest currentPrompt history atts mode in
    let parts := currentParts currentPrompt atts in
    nth_error (Request.contents req) (length history)
      = Some (Content.mk user parts) /\
    length (Request.contents req) = S (length history) /\
    length parts = 2 * length atts + 1 /\
    (forall i att,
       nth_error atts i = Some att ->
       nth_error parts (2 * i)
         = Some (TextPart (js "[File Context: " ++ Attachment.name att ++ js "]")) /\
       nth_error parts (2 * i + 1)
         = Some (InlineDataPart (Attachment.mimeType att) (Attachment.data att))) /\
    nth_error parts (2 * length atts) = Some (TextPart currentPrompt) /\
    (forall mime data, In (InlineDataPart mime data) parts -> mime = pdf).
Proof.
  eexists; eexists. split; [apply processFiles_loop_spec|].
  split; [reflexivity|]. simpl app.
  set (atts := flat_map accepted files).
  assert (Hlen : length (historyContents history) = length history)
    by apply length_map.
  repeat split.
  - unfold assembleRequest. simpl Request.contents.
    rewrite nth_error_app2, Hlen, Nat.sub_diag by lia. reflexivity.
  - unfold assembleRequest. simpl Request.contents.
    rewrite length_app, Hlen. simpl. lia.
  - apply currentParts_length.
  - apply (proj1 (currentParts_nth currentPrompt atts i att H)).
  - apply (proj2 (currentParts_nth currentPrompt atts i att H)).
  - apply currentParts_last.
  - intros mime data Hin.
    destruct (currentParts_inline _ _ _ _ Hin) as (att & Hatt & <- & _).
    pose proof (accepted_pdf files) as Hall.
    rewrite Forall_forall in Hall. now apply Hall.
Qed.

(** C8, as amended.  For every batch: the call returns (it never throws)
    the attachments of the files of the PDF type that could be read, in the
    order of the batch; a file of another type is dropped and nothing is
    written or returned about it; a PDF that cannot be read is dropped and
    one error line with its name is written to the console; the rest of the
    batch is processed all the same.  The size of a file plays no part. *)
Theorem batch_survives_file_failures (files : list File.t) (w : World.t) :
  processFiles (Some files) w
  = (Returned (flat_map accepted files),
     World.mk (World.api_calls w)
       (World.console w ++ flat_map read_errors files)).
Proof. apply (processFiles_loop_spec files [] w). Qed.

(** C8 as it is stated fails: the text file is dropped and the caller is
    told nothing (the world is as before, the result holds no trace of the
    file: the outcome is that of the batch without it), and the file of a
    terabyte is accepted. *)
Lemma rejection_is_silent_and_size_unchecked :
  processFiles (Some [notes_txt; big_pdf]) World.empty
  = (Returned [Attachment.mk (js "big.pdf") pdf (Some (js "JVBERg=="))],
     World.empty) /\
  processFiles (Some [notes_txt; big_pdf]) World.empty
  = processFiles (Some [big_pdf]) World.empty /\
  File.size big_pdf = (2 ^ 40)%N.
Proof. repeat split. Qed.

(** An unreadable PDF between two files: one error line, the rest kept. *)
Example unreadable_file_is_logged :
  processFiles (Some [big_pdf; broken_pdf; big_pdf]) World.empty
  = (Returned [Attachment.mk (js "big.pdf") pdf (Some (js "JVBERg=="));
               Attachment.mk (js "big.pdf") pdf (Some (js "JVBERg=="))],
     World.mk []
       [console_error (js "Failed to process file broken.pdf")
          (ReadError (js "NotReadableError"))]).
Proof. reflexivity. Qed.

(* ================================================================= *)
(** * The calling interface *)

(** C4, as amended.  When the input is empty or white space only and no
    attachment is staged, [handleSubmit] returns at once: the state is as
    before, no request is sent to the model API, nothing is written to the
    console, and nothing is thrown: no error is surfaced. *)
Theorem blank_submission_is_ignored (ai : GoogleGenAI) (id1 id2 : jsstring)
    (now1 now2 : N) (st : UI.State) (w : World.t) :
  trim (UI.input st) = [] ->
  UI.attachments st = [] ->
  UI.handleSubmit ai id1 id2 now1 now2 st w = (Returned st, w).
Proof.
  intros Hin Hatt. unfold UI.handleSubmit. rewrite Hin, Hatt. reflexivity.
Qed.

Lemma blank_submission_is_ignored_witness :
  UI.handleSubmit (answering (text_response (js "ok"))) (js "id-1") (js "id-2")
    1 2 blank_state World.empty
  = (Returned blank_state, World.empty).
Proof.
  apply (blank_submission_is_ignored (answering (text_response (js "ok")))
           (js "id-1") (js "id-2") 1 2 blank_state World.empty);
    reflexivity.
Defined.

(** C4 as it is stated fails.  The assembler checks nothing: called with a
    blank prompt and no attachment it sends a request and returns the
    answer; and the handler that does check returns normally, with no
    error. *)
Lemma blank_prompt_is_sent :
  generateResearchResponse (answering (text_response (js "ok"))) (js "   ")
    [] [] fast World.empty
  = (Returned (ResponseResult.mk (js "ok") [] []),
     World.mk [assembleRequest (js "   ") [] [] fast] []) /\
  UI.handleSubmit (answering (text_response (js "ok"))) (js "id-1") (js "id-2")
    1 2 blank_state World.empty
  = (Returned blank_state, World.empty).
Proof. split; reflexivity. Qed.

Section GroundingFacts.

Lemma extractResponse_returns response w :
  exists ce w',
    extractResponse response w
    = (Returned (ResponseResult.mk (fst ce)
                   (extractGrounding (Response.candidates response)) (snd ce)),
       w').
Proof.
  rewrite extractResponse_evidence. unfold extractEvidence.
  destruct (String_match (fullText response) jsonBlockRegex)
    as [[i b [[|x c]|]]|]; try (eexists; eexists; reflexivity).
  destruct (JSON_parse (x :: c)) as [[]|]; eexists; eexists; reflexivity.
Qed.

Lemma shownAnchors_chunks id text chunks ev now :
  ev = None \/ ev = Some [] ->
  UI.shownAnchors (Message.mk id model text None (Some chunks) ev now)
  = flat_map anchor_of chunks.
Proof.
  intros Hev. unfold UI.shownAnchors, UI.webSources. simpl.
  assert (H : match chunks with
              | [] => @nil UI.Anchor
              | c :: cs =>
                  flat_map (fun o => match o with Some a => [a] | None => [] end)
                    (map (fun chunk =>
                            match GroundingChunk.web chunk with
                            | Some wb =>
                                Some (UI.mkAnchor (WebSource.uri wb)
                                        (WebSource.title wb) (WebSource.uri wb))
                            | None => None
                            end) (c :: cs))
              end = flat_map anchor_of chunks).
  { destruct chunks as [|c cs]; [reflexivity|].
    generalize (c :: cs). intros l.
    induction l as [|x l IH]; [reflexivity|].
    simpl. rewrite IH. unfold anchor_of at 2.
    destruct (GroundingChunk.web x); reflexivity. }
  destruct Hev as [-> | ->]; destruct chunks; exact H.
Qed.

End GroundingFacts.

(** C9.  The extractor always returns, and its grounding chunks are the
    list of the metadata of the first candidate, as it is (entries with no
    [web] field included), when there is one, and the empty list when
    there is none.  The interface, for a message with no evidence, shows one
    anchor for each chunk that has a [web] field, in order, and nothing for
    the others. *)
Theorem grounding_chunks_pass_through (response : Response.t) (w : World.t)
    (id text : jsstring) (now : N) :
  exists r w',
    extractResponse response w = (Returned r, w') /\
    ((exists c0 cs gm chunks,
        Response.candidates response = Some (c0 :: cs) /\
        Candidate.groundingMetadata c0 = Some gm /\
        GroundingMetadata.groundingChunks gm = Some chunks /\
        ResponseResult.groundingChunks r = chunks)
     \/
     ((Response.candidates response = None \/
       Response.candidates response = Some [] \/
       exists c0 cs,
         Response.candidates response = Some (c0 :: cs) /\
         (Candidate.groundingMetadata c0 = None \/
          exists gm, Candidate.groundingMetadata c0 = Some gm /\
                     GroundingMetadata.groundingChunks gm = None)) /\
      ResponseResult.groundingChunks r = [])) /\
    UI.shownAnchors
      (Message.mk id model text None
         (Some (ResponseResult.groundingChunks r)) (Some []) now)
    = flat_map anchor_of (ResponseResult.groundingChunks r) /\
    UI.shownAnchors
      (Message.mk id model text None
         (Some (ResponseResult.groundingChunks r)) None now)
    = flat_map anchor_of (ResponseResult.groundingChunks r).
Proof.
  destruct (extractResponse_returns response w) as (ce & w' & ->).
  eexists; eexists. split; [reflexivity|]. simpl.
  split; [|split; apply shownAnchors_chunks; auto].
  unfold extractGrounding.
  destruct (Response.candidates response) as [[|c0 cs]|] eqn:Hc;
    [right; auto | | right; auto].
  destruct (Candidate.groundingMetadata c0) as [gm|] eqn:Hgm.
  - destruct (GroundingMetadata.groundingChunks gm) as [chunks|] eqn:Hch.
    + left. exists c0, cs, gm, chunks. auto.
    + right. split; [|reflexivity]. right; right.
      exists c0, cs. split; [reflexivity|]. right. exists gm. auto.
  - right. split; [|reflexivity]. right; right.
    exists c0, cs. split; [reflexivity|]. left. exact Hgm.
Qed.

(** A response of two chunks, the second with no [web] field. *)
Example chunk_without_web_is_kept_then_hidden :
  let chunks := [GroundingChunk.mk (Some (WebSource.mk (js "http://u") (js "T")));
                 GroundingChunk.mk None] in
  let response :=
    Response.mk (Some (js "Answer."))
      (Some [Candidate.mk (Some (GroundingMetadata.mk (Some chunks)))]) in
  extractResponse response World.empty
  = (Returned (ResponseResult.mk (js "Answer.") chunks []), World.empty) /\
  UI.shownAnchors
    (Message.mk (js "id") model (js "Answer.") None (Some chunks) (Some []) 0)
  = [UI.mkAnchor (js "http://u") (js "T") (js "http://u")].
Proof. split; reflexivity. Qed.

(* ================================================================= *)
(** * Further properties of the service *)

Section OccurrenceFacts.

Lemma indexOf_None p s :
  indexOf p s = None -> forall j, startsWith p (skipn j s) = false.
Proof.
  induction s as [|c s IH]; simpl indexOf; intros H j.
  - destruct (startsWith p []) eqn:E; [discriminate|].
    now rewrite skipn_nil.
  - destruct (startsWith p (c :: s)) eqn:E; [discriminate|].
    destruct (indexOf p s) eqn:Ei; [discriminate|].
    destruct j as [|j]; [exact E | apply IH; reflexivity].
Qed.

Lemma indexOf_Some p s i :
  indexOf p s = Some i ->
  startsWith p (skipn i s) = true /\
  (forall j, j < i -> startsWith p (skipn j s) = false).
Proof.
  revert i; induction s as [|c s IH]; simpl indexOf; intros i H.
  - destruct (startsWith p []) eqn:E; [|discriminate].
    injection H as <-. split; [exact E | intros j Hj; lia].
  - destruct (startsWith p (c :: s)) eqn:E.
    + injection H as <-. split; [exact E | intros j Hj; lia].
    + destruct (indexOf p s) as [k|] eqn:Ei; [|discriminate].
      injection H as <-. destruct (IH k eq_refl) as [Hat Hbefore].
      split; [exact Hat|].
      intros [|j] Hj; [exact E | apply Hbefore; lia].
Qed.

Lemma exec_from_none r s : forall i,
  (forall j, match_here r (skipn j s) = None) -> exec_from r i s = None.
Proof.
  induction s as [|c s IH]; intros i H; simpl.
  - pose proof (H 0) as H0. simpl in H0. now rewrite H0.
  - pose proof (H 0) as H0. simpl in H0. rewrite H0.
    apply IH. intros j. apply (H (S j)).
Qed.

(** With no opening fence, or with no closing fence after the first opening
    one, the regular expression matches nowhere. *)
Lemma no_fence_no_match raw :
  indexOf (js "```json") raw = None \/
  (exists i, indexOf (js "```json") raw = Some i /\
             indexOf (js "```") (skipn (i + 7) raw) = None) ->
  String_match raw jsonBlockRegex = None.
Proof.
  intros H. apply exec_from_none. intros j.
  destruct (match_here jsonBlockRegex (skipn j raw)) as [[rest cap]|] eqn:Hm;
    [exfalso | reflexivity].
  pose proof Hm as Hshape.
  apply match_here_shape in Hshape as (ws1 & c & ws2 & Hs & _).
  assert (Hfence : startsWith (js "```json") (skipn j raw) = true)
    by (rewrite Hs; apply startsWith_app).
  destruct H as [Hnone | (i & Hi & Hclose)].
  - rewrite (indexOf_None _ _ Hnone j) in Hfence. discriminate.
  - destruct (indexOf_Some _ _ _ Hi) as [_ Hbefore].
    assert (Hij : i <= j).
    { destruct (Nat.le_gt_cases i j) as [L | L]; [exact L|].
      rewrite (Hbefore j L) in Hfence. discriminate. }
    pose proof (indexOf_None _ _ Hclose (j - i + length (ws1 ++ c ++ ws2))) as K.
    rewrite skipn_skipn in K.
    replace (j - i + length (ws1 ++ c ++ ws2) + (i + 7))
      with (length (js "```json" ++ ws1 ++ c ++ ws2) + j) in K
      by (rewrite !length_app; change (length (js "```json")) with 7; lia).
    rewrite <- skipn_skipn, Hs in K.
    replace (js "```json" ++ ws1 ++ c ++ ws2 ++ js "```" ++ rest)
      with ((js "```json" ++ ws1 ++ c ++ ws2) ++ js "```" ++ rest) in K
      by now rewrite <- !app_assoc.
    rewrite skipn_app, skipn_all, Nat.sub_diag, skipn_O, app_nil_l in K.
    rewrite startsWith_app in K. discriminate.
Qed.

End OccurrenceFacts.

Section TrimIdempotence.

Lemma trimStart_fixed s :
  match s with [] => True | y :: _ => is_space y = false end ->
  trimStart s = s.
Proof. destruct s as [|y s]; simpl; [reflexivity | now intros ->]. Qed.

Lemma trimStart_idem s : trimStart (trimStart s) = trimStart s.
Proof. apply trimStart_fixed, trimStart_head. Qed.

Lemma trimEnd_idem s : trimEnd (trimEnd s) = trimEnd s.
Proof. unfold trimEnd. now rewrite rev_involutive, trimStart_idem. Qed.

Lemma trimEnd_keeps_head s :
  match s with [] => True | y :: _ => is_space y = false end ->
  match trimEnd s with [] => True | y :: _ => is_space y = false end.
Proof.
  intros H. destruct (trimEnd_split s) as (ws & E & _).
  destruct (trimEnd s) as [|y u]; [exact I|].
  rewrite E in H. exact H.
Qed.

Lemma trim_idem s : trim (trim s) = trim s.
Proof.
  unfold trim.
  rewrite (trimStart_fixed (trimEnd (trimStart s))).
  - apply trimEnd_idem.
  - apply trimEnd_keeps_head, trimStart_head.
Qed.

End TrimIdempotence.

(** When the API throws, the call writes one line and throws the same. *)
Lemma generateResearchResponse_failed ai prompt history attachments mode w e :
  ai (assembleRequest prompt history attachments mode) = inl e ->
  generateResearchResponse ai prompt history attachments mode w
  = (Thrown e,
     World.mk (World.api_calls w
               ++ [assembleRequest prompt history attachments mode])
       (World.console w ++ [console_error (js "Gemini API Error:") e])).
Proof.
  intros H. unfold generateResearchResponse, try_catch, bind, generateContent.
  rewrite H. reflexivity.
Qed.

(** X1.  The call throws exactly when the API throws, and then it throws
    the error of the API as it is, after one request was sent and one error
    line was written to the console. *)
Theorem api_error_is_rethrown (ai : GoogleGenAI) (currentPrompt : jsstring)
    (history : list Message.t) (attachments : list Attachment.t)
    (mode : ModelMode) (w : World.t) (e : JSError) :
  let req := assembleRequest currentPrompt history attachments mode in
  ((exists w',
      generateResearchResponse ai currentPrompt history attachments mode w
      = (Thrown e, w'))
   <-> ai req = inl e) /\
  (ai req = inl e ->
   generateResearchResponse ai currentPrompt history attachments mode w
   = (Thrown e,
      World.mk (World.api_calls w ++ [req])
        (World.console w ++ [console_error (js "Gemini API Error:") e]))).
Proof.
  intros req. subst req.
  split; [|apply generateResearchResponse_failed].
  split.
  - intros (w' & H).
    destruct (ai (assembleRequest currentPrompt history attachments mode))
      as [e'|resp] eqn:Hai.
    + rewrite (generateResearchResponse_failed _ _ _ _ _ w _ Hai) in H.
      congruence.
    + exfalso.
      rewrite (generateResearchResponse_answered _ _ _ _ _ _ _ Hai) in H.
      unfold try_catch in H.
      destruct (extractResponse_returns resp
                  (World.mk (World.api_calls w
                             ++ [assembleRequest currentPrompt history
                                   attachments mode])
                     (World.console w)))
        as (ce & w'' & Hr).
      rewrite Hr in H. discriminate.
  - intros H. eexists. apply (generateResearchResponse_failed _ _ _ _ _ w _ H).
Qed.

Lemma api_error_is_rethrown_witness :
  generateResearchResponse (failing (ApiError (js "quota"))) (js "hello") [] []
    web World.empty
  = (Thrown (ApiError (js "quota")),
     World.mk [assembleRequest (js "hello") [] [] web]
       [console_error (js "Gemini API Error:") (ApiError (js "quota"))]).
Proof.
  apply (proj2 (api_error_is_rethrown (failing (ApiError (js "quota")))
                  (js "hello") [] [] web World.empty (ApiError (js "quota")))).
  reflexivity.
Defined.

(** X2.  A non-empty text with no opening fence [```json], or with no
    closing fence after its first opening fence, comes back as it is, with
    no evidence; nothing is written to the console. *)
Theorem no_fence_nothing_extracted (response : Response.t) (raw : jsstring)
    (w : World.t) :
  Response.text response = Some raw ->
  raw <> [] ->
  indexOf (js "```json") raw = None \/
  (exists i, indexOf (js "```json") raw = Some i /\
             indexOf (js "```") (skipn (i + 7) raw) = None) ->
  extractResponse response w
  = (Returned (ResponseResult.mk raw
                 (extractGrounding (Response.candidates response)) []), w).
Proof.
  intros Ht Hne Hfence.
  rewrite extractResponse_evidence, (fullText_nonempty _ _ Ht Hne).
  unfold extractEvidence. rewrite (no_fence_no_match raw Hfence). reflexivity.
Qed.

Lemma no_fence_nothing_extracted_witness :
  extractResponse (text_response (js "```JSON [1] ``` and ```json [2]"))
    World.empty
  = (Returned (ResponseResult.mk (js "```JSON [1] ``` and ```json [2]") [] []),
     World.empty).
Proof.
  apply (no_fence_nothing_extracted
           (text_response (js "```JSON [1] ``` and ```json [2]"))
           (js "```JSON [1] ``` and ```json [2]") World.empty).
  - reflexivity.
  - discriminate.
  - right. exists 20. split; reflexivity.
Defined.

(** X3.  When a block is stripped, the text returned is trimmed: trimming
    it again changes nothing. *)
Theorem stripped_text_is_trimmed (response : Response.t) (raw : jsstring)
    (w : World.t) :
  Response.text response = Some raw ->
  list_block raw = true ->
  exists r,
    extractResponse response w = (Returned r, w) /\
    trim (ResponseResult.text r) = ResponseResult.text r /\
    trimStart (ResponseResult.text r) = ResponseResult.text r /\
    trimEnd (ResponseResult.text r) = ResponseResult.text r.
Proof.
  intros Ht Hlb.
  destruct (list_block_true _ Hlb) as (m & c & items & Hm & Hc & Hp).
  rewrite extractResponse_evidence.
  rewrite (fullText_nonempty _ _ Ht (match_nonempty _ _ Hm)).
  rewrite (extractEvidence_list _ _ _ _ w Hm Hc Hp).
  eexists. split; [reflexivity|]. cbn [fst ResponseResult.text].
  repeat split.
  - apply trim_idem.
  - unfold trim. apply trimStart_fixed, trimEnd_keeps_head, trimStart_head.
  - unfold trim. apply trimEnd_idem.
Qed.

Lemma stripped_text_is_trimmed_witness :
  exists r,
    extractResponse (text_response spec_example) World.empty
      = (Returned r, World.empty) /\
    trim (ResponseResult.text r) = ResponseResult.text r /\
    trimStart (ResponseResult.text r) = ResponseResult.text r /\
    trimEnd (ResponseResult.text r) = ResponseResult.text r.
Proof.
  apply (stripped_text_is_trimmed (text_response spec_example) spec_example
           World.empty); reflexivity.
Defined.

(** X4.  The extractor always returns, sends nothing to the API, and
    writes to the console in one case only: a block was found, its content
    is not empty and [JSON.parse] threw; then it writes one warning.  A
    content that parses to something that is not a list is dropped with no
    warning. *)
Theorem warning_only_on_syntax_error (response : Response.t) (w : World.t) :
  exists r w',
    extractResponse response w = (Returned r, w') /\
    World.api_calls w' = World.api_calls w /\
    ((exists m c,
        String_match (fullText response) jsonBlockRegex = Some m /\
        m1 m = Some c /\ c <> [] /\ JSON_parse c = None /\
        World.console w'
        = World.console w
          ++ [console_warn (js "Failed to parse Evidence Graph JSON") SyntaxError])
     \/
     ((forall m c,
         String_match (fullText response) jsonBlockRegex = Some m ->
         m1 m = Some c -> c = [] \/ JSON_parse c <> None) /\
      World.console w' = World.console w)).
Proof.
  rewrite extractResponse_evidence. unfold extractEvidence.
  destruct (String_match (fullText response) jsonBlockRegex)
    as [[i b [[|x c]|]]|] eqn:Hm.
  - eexists; eexists. repeat split. right. split; [|reflexivity].
    intros m c H1 H2. injection H1 as <-. simpl in H2. injection H2 as <-.
    now left.
  - destruct (JSON_parse (x :: c)) as [v|] eqn:Hp.
    + assert (Hno : forall m c0,
                Some (mkMatch i b (Some (x :: c))) = Some m ->
                m1 m = Some c0 -> c0 = [] \/ JSON_parse c0 <> None).
      { intros m c0 H1 H2. injection H1 as <-. simpl in H2.
        injection H2 as <-. right. congruence. }
      destruct v; eexists; eexists; repeat split; right; split;
        try reflexivity; exact Hno.
    + eexists; eexists. repeat split. left.
      exists (mkMatch i b (Some (x :: c))), (x :: c).
      repeat split; auto. discriminate.
  - eexists; eexists. repeat split. right. split; [|reflexivity].
    intros m c H1 H2. injection H1 as <-. discriminate.
  - eexists; eexists. repeat split. right. split; [|reflexivity].
    intros m c H1. discriminate.
Qed.

(** X5.  The instruction of [web] is that of [deep]; the instruction of
    [fast] is another one; each starts with the same first paragraph; and
    the instruction asks for a fenced json block (it holds the opening fence)
    in every mode but [fast]. *)
Theorem instruction_by_mode :
  getSystemInstruction web = getSystemInstruction deep /\
  getSystemInstruction fast <> getSystemInstruction web /\
  (forall mode,
     startsWith instruction_base (getSystemInstruction mode) = true) /\
  (forall mode,
     indexOf (js "```json") (getSystemInstruction mode) = None <-> mode = fast).
Proof.
  split; [reflexivity|].
  split.
  { intros H. apply (f_equal (@length _)) in H. vm_compute in H. discriminate. }
  split.
  - intros mode. destruct mode; apply startsWith_app.
  - intros mode. destruct mode; split; intros H; try reflexivity;
      try discriminate H; vm_compute in H; discriminate H.
Qed.

(* ================================================================= *)
(** * Further properties of the file ingestion *)

Section SplitFacts.

Variable sep : code_unit.

Lemma split_aux_no_sep s : forall cur,
  lacks sep s = true -> split_aux sep s cur = [rev cur ++ s].
Proof.
  induction s as [|c s IH]; intros cur H; unfold lacks in *; simpl in *.
  - now rewrite app_nil_r.
  - apply andb_true_iff in H as [Hc Hs].
    apply negb_true_iff in Hc. rewrite Hc, (IH _ Hs). simpl.
    now rewrite <- app_assoc.
Qed.

Lemma split_aux_sep a b : forall cur,
  lacks sep a = true ->
  split_aux sep (a ++ sep :: b) cur = (rev cur ++ a) :: split_aux sep b [].
Proof.
  induction a as [|c a IH]; intros cur H; unfold lacks in *; simpl in *.
  - now rewrite N.eqb_refl, app_nil_r.
  - apply andb_true_iff in H as [Hc Ha].
    apply negb_true_iff in Hc. rewrite Hc, (IH _ Ha). simpl.
    now rewrite <- app_assoc.
Qed.

(** The second piece of a split: what lies between the first separator and
    the second one, or the end. *)
Lemma split_second a b rest :
  lacks sep a = true -> lacks sep b = true ->
  rest = [] \/ (exists r, rest = sep :: r) ->
  nth_error (split sep (a ++ [sep] ++ b ++ rest)) 1 = Some b.
Proof.
  intros Ha Hb Hrest. unfold split. simpl app.
  rewrite (split_aux_sep a (b ++ rest) [] Ha). simpl.
  destruct Hrest as [-> | (r & ->)].
  - rewrite app_nil_r, (split_aux_no_sep b [] Hb). reflexivity.
  - rewrite (split_aux_sep b r [] Hb). reflexivity.
Qed.

Lemma split_single s : lacks sep s = true -> split sep s = [s].
Proof. intros H. unfold split. now rewrite (split_aux_no_sep s [] H). Qed.

End SplitFacts.

Section SingleFile.

Lemma processFiles_one file w :
  File.type file = pdf ->
  processFiles (Some [file]) w
  = match File.readAsDataURL file with
    | inr result =>
        (Returned [Attachment.mk (File.name file) pdf
                     (nth_error (split (ch ",") result) 1)], w)
    | inl err =>
        (Returned [],
         World.mk (World.api_calls w)
           (World.console w
            ++ [console_error (js "Failed to process file " ++ File.name file)
                  err]))
    end.
Proof.
  intros Hpdf. unfold processFiles. rewrite processFiles_loop_spec.
  simpl flat_map. unfold accepted, read_errors. rewrite Hpdf.
  replace (JS.eqb pdf pdf) with true by (symmetry; now apply eqb_eq).
  destruct (File.readAsDataURL file) as [err|result]; simpl.
  - reflexivity.
  - rewrite app_nil_r. destruct w; reflexivity.
Qed.

End SingleFile.

(** X6.  Processing a batch made of two batches is processing the one, then
    the other: the attachments of the first come first, and the console
    lines too. *)
Theorem processFiles_app (files1 files2 : list File.t) (w : World.t) :
  processFiles (Some (files1 ++ files2)) w
  = (atts1 <- processFiles (Some files1) ;;
     atts2 <- processFiles (Some files2) ;;
     ret (atts1 ++ atts2)) w.
Proof.
  unfold bind, ret, processFiles.
  rewrite !processFiles_loop_spec. cbn [World.api_calls World.console app].
  now rewrite !flat_map_app, app_assoc.
Qed.

(** X7.  [fileToBase64] gives what lies in the data URL between the first
    comma and the second one, or the end: for the URL
    [data:<type>;base64,<payload>] of a reader, the payload.  A PDF read so
    becomes one attachment, with its name and this payload. *)
Theorem data_url_payload (file : File.t) (head payload rest : jsstring)
    (w : World.t) :
  File.readAsDataURL file = inr (head ++ [ch ","] ++ payload ++ rest) ->
  no_comma head = true ->
  no_comma payload = true ->
  rest = [] \/ (exists r, rest = ch "," :: r) ->
  fileToBase64 file w = (Returned (Some payload), w) /\
  (File.type file = pdf ->
   processFiles (Some [file]) w
   = (Returned [Attachment.mk (File.name file) pdf (Some payload)], w)).
Proof.
  intros Hread Hhead Hpayload Hrest.
  pose proof (split_second (ch ",") head payload rest Hhead Hpayload Hrest) as Hs.
  split.
  - unfold fileToBase64. rewrite Hread, Hs. reflexivity.
  - intros Hpdf. rewrite (processFiles_one file w Hpdf), Hread, Hs. reflexivity.
Qed.

Lemma data_url_payload_witness :
  fileToBase64 big_pdf World.empty = (Returned (Some (js "JVBERg==")), World.empty) /\
  (File.type big_pdf = pdf ->
   processFiles (Some [big_pdf]) World.empty
   = (Returned [Attachment.mk (js "big.pdf") pdf (Some (js "JVBERg=="))],
      World.empty)).
Proof.
  apply (data_url_payload big_pdf (js "data:application/pdf;base64")
           (js "JVBERg==") [] World.empty).
  - reflexivity.
  - reflexivity.
  - reflexivity.
  - left. reflexivity.
Defined.

(** X8.  When what the reader gives holds no comma, [fileToBase64] resolves
    with [undefined]; the file is not rejected and nothing is written to
    the console: a PDF read so becomes an attachment with no data. *)
Theorem comma_less_url_gives_no_data (file : File.t) (result : jsstring)
    (w : World.t) :
  File.readAsDataURL file = inr result ->
  no_comma result = true ->
  fileToBase64 file w = (Returned None, w) /\
  (File.type file = pdf ->
   processFiles (Some [file]) w
   = (Returned [Attachment.mk (File.name file) pdf None], w)).
Proof.
  intros Hread Hno.
  pose proof (split_single (ch ",") result Hno) as Hs.
  split.
  - unfold fileToBase64. rewrite Hread, Hs. reflexivity.
  - intros Hpdf. rewrite (processFiles_one file w Hpdf), Hread, Hs. reflexivity.
Qed.

Lemma comma_less_url_gives_no_data_witness :
  fileToBase64 comma_less_pdf World.empty = (Returned None, World.empty) /\
  (File.type comma_less_pdf = pdf ->
   processFiles (Some [comma_less_pdf]) World.empty
   = (Returned [Attachment.mk (js "empty.pdf") pdf None], World.empty)).
Proof.
  apply (comma_less_url_gives_no_data comma_less_pdf (js "data:") World.empty);
    reflexivity.
Defined.

(* ================================================================= *)
(** * Further properties of the calling interface *)

Section InterfaceFacts.

Lemma filter_from_keep (A : Type) (l : list A) : forall k n,
  n < k -> filter_from (fun _ j => negb (j =? n)) k l = l.
Proof.
  induction l as [|x l IH]; intros k n H; simpl; [reflexivity|].
  replace (k =? n) with false by (symmetry; apply Nat.eqb_neq; lia).
  simpl. f_equal. apply IH. lia.
Qed.

Lemma filter_from_remove (A : Type) (l : list A) : forall k n i,
  n = k + i ->
  filter_from (fun _ j => negb (j =? n)) k l = firstn i l ++ skipn (S i) l.
Proof.
  induction l as [|x l IH]; intros k n i Hn; simpl filter_from.
  - now rewrite firstn_nil, skipn_nil.
  - destruct i as [|i].
    + replace (k =? n) with true by (symmetry; apply Nat.eqb_eq; lia).
      simpl. apply filter_from_keep. lia.
    + replace (k =? n) with false by (symmetry; apply Nat.eqb_neq; lia).
      simpl. f_equal. apply IH. lia.
Qed.

Lemma Forall_remove (A : Type) (P : A -> Prop) (l : list A) : forall i,
  Forall P l -> Forall P (firstn i l ++ skipn (S i) l).
Proof.
  induction l as [|x l IH]; intros i H.
  - now rewrite firstn_nil, skipn_nil.
  - inversion H as [|? ? Hx Hl]; subst. destruct i as [|i]; simpl.
    + exact Hl.
    + constructor; [exact Hx | apply IH, Hl].
Qed.

Lemma guard_is_disabled st :
  (match trim (UI.input st) with [] => true | _ => false end
   && (length (UI.attachments st) =? 0)
   || UI.isLoading st)%bool
  = UI.submitDisabled st.
Proof. unfold UI.submitDisabled. apply orb_comm. Qed.

Lemma handleSubmit_disabled ai id1 id2 now1 now2 st w :
  UI.submitDisabled st = true ->
  UI.handleSubmit ai id1 id2 now1 now2 st w = (Returned st, w).
Proof.
  intros H. unfold UI.handleSubmit. rewrite guard_is_disabled, H. reflexivity.
Qed.

(** A submission that is not ignored: the call is made once, and its
    outcome decides the last message. *)
Lemma handleSubmit_enabled ai id1 id2 now1 now2 st w :
  UI.submitDisabled st = false ->
  UI.handleSubmit ai id1 id2 now1 now2 st w
  = match generateResearchResponse ai (UI.input st) (UI.messages st)
            (UI.attachments st) (UI.modelMode st) w with
    | (Returned response, w') =>
        (Returned
           (submitted id1 now1 st
              (Message.mk id2 model (ResponseResult.text response) None
                 (Some (ResponseResult.groundingChunks response))
                 (Some (ResponseResult.evidence response)) now2)),
         w')
    | (Thrown error, w') =>
        (Returned (submitted id1 now1 st (apologyMessage id2 now2)),
         World.mk (World.api_calls w')
           (World.console w'
            ++ [console_error (js "Error generating response") error]))
    end.
Proof.
  intros H. unfold UI.handleSubmit. rewrite guard_is_disabled, H.
  unfold bind, try_catch, ret, log.
  destruct (generateResearchResponse ai (UI.input st) (UI.messages st)
              (UI.attachments st) (UI.modelMode st) w) as [[response|error] w'];
    reflexivity.
Qed.

Lemma handleFileUpload_spec files st w :
  UI.handleFileUpload (Some files) st w
  = (Returned (UI.mkState (UI.messages st) (UI.input st) (UI.isLoading st)
                 (UI.attachments st ++ flat_map accepted files)
                 (UI.modelMode st)),
     World.mk (World.api_calls w)
       (World.console w ++ flat_map read_errors files)).
Proof.
  unfold UI.handleFileUpload, bind, ret, processFiles.
  rewrite processFiles_loop_spec. reflexivity.
Qed.

Lemma extractResponse_calls response w o w' :
  extractResponse response w = (o, w') ->
  World.api_calls w' = World.api_calls w.
Proof.
  rewrite extractResponse_evidence. unfold extractEvidence.
  destruct (String_match (fullText response) jsonBlockRegex)
    as [[i b [[|x c]|]]|]; try (intros H; injection H as _ <-; reflexivity).
  destruct (JSON_parse (x :: c)) as [[]|];
    intros H; injection H as _ <-; reflexivity.
Qed.

End InterfaceFacts.

(** X9.  [removeAttachment] takes out the attachment at the index and keeps
    the others in their order; an index past the end removes nothing.  The
    rest of the state is untouched. *)
Theorem removeAttachment_at (index : nat) (st : UI.State) :
  UI.removeAttachment index st
  = UI.mkState (UI.messages st) (UI.input st) (UI.isLoading st)
      (firstn index (UI.attachments st) ++ skipn (S index) (UI.attachments st))
      (UI.modelMode st) /\
  (index < length (UI.attachments st) ->
   S (length (UI.attachments (UI.removeAttachment index st)))
   = length (UI.attachments st)) /\
  (length (UI.attachments st) <= index -> UI.removeAttachment index st = st).
Proof.
  assert (E : UI.removeAttachment index st
              = UI.mkState (UI.messages st) (UI.input st) (UI.isLoading st)
                  (firstn index (UI.attachments st)
                   ++ skipn (S index) (UI.attachments st))
                  (UI.modelMode st)).
  { unfold UI.removeAttachment. f_equal. now apply filter_from_remove. }
  split; [exact E|]. rewrite E. split.
  - intros H. cbn [UI.attachments].
    rewrite length_app, length_firstn, length_skipn. lia.
  - intros H. rewrite firstn_all2, skipn_all2, app_nil_r by lia.
    destruct st; reflexivity.
Qed.

(** X10.  Two uploads one after the other are one upload of the two batches
    together: the same attachments staged in the same order, the same
    lines on the console; messages, input and mode are as before. *)
Theorem uploads_compose (files1 files2 : list File.t) (st : UI.State)
    (w : World.t) :
  (st1 <- UI.handleFileUpload (Some files1) st ;;
   UI.handleFileUpload (Some files2) st1) w
  = UI.handleFileUpload (Some (files1 ++ files2)) st w /\
  UI.handleFileUpload (Some (files1 ++ files2)) st w
  = (Returned (UI.mkState (UI.messages st) (UI.input st) (UI.isLoading st)
                 (UI.attachments st
                  ++ flat_map accepted files1 ++ flat_map accepted files2)
                 (UI.modelMode st)),
     World.mk (World.api_calls w)
       (World.console w
        ++ flat_map read_errors files1 ++ flat_map read_errors files2)).
Proof.
  unfold bind. rewrite !handleFileUpload_spec.
  cbn [UI.messages UI.input UI.isLoading UI.attachments UI.modelMode
       World.api_calls World.console].
  rewrite !flat_map_app, <- !app_assoc. split; reflexivity.
Qed.

(** X11.  A submission that is not ignored, when the API answers: one
    request is sent, built from the input as typed, the messages before this
    one, the staged attachments and the mode; the message of the user and
    the answer are appended, the answer with the text, the grounding chunks
    and the evidence of the extractor; input and staged attachments are
    cleared. *)
Theorem submit_answered (ai : GoogleGenAI) (id1 id2 : jsstring) (now1 now2 : N)
    (st : UI.State) (w : World.t) (resp : Response.t) :
  UI.submitDisabled st = false ->
  ai (assembleRequest (UI.input st) (UI.messages st) (UI.attachments st)
        (UI.modelMode st)) = inr resp ->
  exists r w',
    extractResponse resp
      (World.mk (World.api_calls w
                 ++ [assembleRequest (UI.input st) (UI.messages st)
                       (UI.attachments st) (UI.modelMode st)])
         (World.console w))
    = (Returned r, w') /\
    World.api_calls w'
    = World.api_calls w
      ++ [assembleRequest (UI.input st) (UI.messages st) (UI.attachments st)
            (UI.modelMode st)] /\
    UI.handleSubmit ai id1 id2 now1 now2 st w
    = (Returned
         (UI.mkState
            (UI.messages st
             ++ [Message.mk id1 user (UI.input st) (Some (UI.attachments st))
                   None None now1;
                 Message.mk id2 model (ResponseResult.text r) None
                   (Some (ResponseResult.groundingChunks r))
                   (Some (ResponseResult.evidence r)) now2])
            [] false [] (UI.modelMode st)),
       w').
Proof.
  intros Hen Hai.
  rewrite (handleSubmit_enabled ai id1 id2 now1 now2 st w Hen).
  rewrite (generateResearchResponse_answered _ _ _ _ _ _ _ Hai).
  unfold try_catch.
  set (w0 := World.mk _ _).
  destruct (extractResponse_returns resp w0) as (ce & w' & Hr).
  rewrite Hr. eexists; eexists. split; [reflexivity|]. split; [|reflexivity].
  apply (extractResponse_calls _ _ _ _ Hr).
Qed.

Lemma submit_answered_witness :
  exists r w',
    extractResponse (text_response spec_example)
      (World.mk [assembleRequest (js "What is new?")
                   (UI.messages (UI.initialState 0)) [] web] [])
    = (Returned r, w') /\
    World.api_calls w'
    = [assembleRequest (js "What is new?") (UI.messages (UI.initialState 0))
         [] web] /\
    UI.handleSubmit (answering (text_response spec_example)) (js "id-1")
      (js "id-2") 1 2 asking_state World.empty
    = (Returned
         (UI.mkState
            (UI.messages (UI.initialState 0)
             ++ [Message.mk (js "id-1") user (js "What is new?") (Some [])
                   None None 1;
                 Message.mk (js "id-2") model (ResponseResult.text r) None
                   (Some (ResponseResult.groundingChunks r))
                   (Some (ResponseResult.evidence r)) 2])
            [] false [] web),
       w').
Proof.
  apply (submit_answered (answering (text_response spec_example)) (js "id-1")
           (js "id-2") 1 2 asking_state World.empty
           (text_response spec_example));
    reflexivity.
Defined.

(** X12.  A submission that is not ignored, when the API throws: the
    handler does not throw; the message of the user and an apology with no
    evidence and no grounding chunks are appended; input and staged
    attachments are cleared all the same; the console gets the line of the
    service, then the line of the handler. *)
Theorem submit_failed (ai : GoogleGenAI) (id1 id2 : jsstring) (now1 now2 : N)
    (st : UI.State) (w : World.t) (e : JSError) :
  UI.submitDisabled st = false ->
  ai (assembleRequest (UI.input st) (UI.messages st) (UI.attachments st)
        (UI.modelMode st)) = inl e ->
  UI.handleSubmit ai id1 id2 now1 now2 st w
  = (Returned
       (UI.mkState
          (UI.messages st
           ++ [Message.mk id1 user (UI.input st) (Some (UI.attachments st))
                 None None now1;
               Message.mk id2 model UI.apology None None None now2])
          [] false [] (UI.modelMode st)),
     World.mk
       (World.api_calls w
        ++ [assembleRequest (UI.input st) (UI.messages st) (UI.attachments st)
              (UI.modelMode st)])
       (World.console w
        ++ [console_error (js "Gemini API Error:") e;
            console_error (js "Error generating response") e])).
Proof.
  intros Hen Hai.
  rewrite (handleSubmit_enabled ai id1 id2 now1 now2 st w Hen).
  rewrite (generateResearchResponse_failed _ _ _ _ _ w _ Hai).
  cbn [World.api_calls World.console]. now rewrite <- app_assoc.
Qed.

Lemma submit_failed_witness :
  UI.handleSubmit (failing (ApiError (js "quota"))) (js "id-1") (js "id-2") 1 2
    asking_state World.empty
  = (Returned
       (UI.mkState
          (UI.messages (UI.initialState 0)
           ++ [Message.mk (js "id-1") user (js "What is new?") (Some [])
                 None None 1;
               Message.mk (js "id-2") model UI.apology None None None 2])
          [] false [] web),
     World.mk
       [assembleRequest (js "What is new?") (UI.messages (UI.initialState 0))
          [] web]
       [console_error (js "Gemini API Error:") (ApiError (js "quota"));
        console_error (js "Error generating response") (ApiError (js "quota"))]).
Proof.
  apply (submit_failed (failing (ApiError (js "quota"))) (js "id-1") (js "id-2")
           1 2 asking_state World.empty (ApiError (js "quota")));
    reflexivity.
Defined.

(** X13.  The "Research" button is disabled exactly when [handleSubmit]
    would do nothing: it leaves state and world as they are if and only if
    a call is under way, or the input is blank and nothing is staged. *)
Theorem disabled_iff_ignored (ai : GoogleGenAI) (id1 id2 : jsstring)
    (now1 now2 : N) (st : UI.State) (w : World.t) :
  UI.submitDisabled st = true <->
  UI.handleSubmit ai id1 id2 now1 now2 st w = (Returned st, w).
Proof.
  split; [apply handleSubmit_disabled|].
  intros H. destruct (UI.submitDisabled st) eqn:Hd; [reflexivity | exfalso].
  rewrite (handleSubmit_enabled ai id1 id2 now1 now2 st w Hd) in H.
  assert (Hlen : forall answer,
            UI.messages (submitted id1 now1 st answer) <> UI.messages st).
  { intros answer E. apply (f_equal (@length _)) in E.
    unfold submitted in E. cbn [UI.messages] in E.
    rewrite length_app in E. simpl in E. lia. }
  destruct (generateResearchResponse ai (UI.input st) (UI.messages st)
              (UI.attachments st) (UI.modelMode st) w) as [[r|e] w'];
    injection H as H _; eapply Hlen; rewrite H; reflexivity.
Qed.

Section SessionFacts.

Lemma concat_repeat_snoc (A : Type) (x : list A) k :
  concat (repeat x k) ++ x = concat (repeat x (S k)).
Proof.
  induction k as [|k IH]; simpl; [now rewrite app_nil_r|].
  now rewrite <- app_assoc, IH.
Qed.

Lemma roles_shift k :
  (model :: concat (repeat [user; model] k)) ++ [user]
  = concat (repeat [model; user] (S k)).
Proof.
  induction k as [|k IH]; [reflexivity|].
  change (concat (repeat [model; user] (S (S k))))
    with (model :: user :: concat (repeat [model; user] (S k))).
  rewrite <- IH. reflexivity.
Qed.

Lemma assembled_only_pdf prompt history atts mode :
  Forall (fun att => Attachment.mimeType att = pdf) atts ->
  only_pdf (assembleRequest prompt history atts mode).
Proof.
  intros Hatts content mime data Hc Hp.
  unfold assembleRequest in Hc. cbn [Request.contents] in Hc.
  apply in_app_or in Hc as [Hc | [<- | []]].
  - unfold historyContents in Hc. apply in_map_iff in Hc as (msg & <- & _).
    destruct Hp as [Hp | []]. discriminate.
  - cbn [Content.parts] in Hp.
    destruct (currentParts_inline _ _ _ _ Hp) as (att & Hin & <- & _).
    rewrite Forall_forall in Hatts. now apply Hatts.
Qed.

Lemma assembled_starts_with_welcome prompt first rest k atts mode :
  Message.role first = model ->
  Message.text first = UI.welcome_text ->
  map Message.role (first :: rest) = model :: concat (repeat [user; model] k) ->
  starts_with_welcome (assembleRequest prompt (first :: rest) atts mode).
Proof.
  intros Hrole Htext Hroles.
  exists (historyContents rest ++ [Content.mk user (currentParts prompt atts)]), k.
  unfold assembleRequest. cbn [Request.contents]. split.
  - simpl. now rewrite Hrole, Htext.
  - rewrite map_app. unfold historyContents at 1. rewrite map_map.
    change (map (fun x : Message.t =>
                   Content.role
                     (Content.mk (Message.role x) [TextPart (Message.text x)]))
              (first :: rest))
      with (map Message.role (first :: rest)).
    rewrite Hroles. apply roles_shift.
Qed.

Lemma handleSubmit_keeps ai id1 id2 now1 now2 st w :
  session_invariant st w ->
  exists st' w',
    UI.handleSubmit ai id1 id2 now1 now2 st w = (Returned st', w') /\
    session_invariant st' w'.
Proof.
  intros Hinv. destruct (UI.submitDisabled st) eqn:Hd.
  { rewrite (handleSubmit_disabled ai id1 id2 now1 now2 st w Hd).
    now exists st, w. }
  destruct Hinv as (Hatts & (first & rest & k & Hm & Hrole & Htext & Hroles)
                    & Hpdf & Hwel & Hlen).
  rewrite (handleSubmit_enabled ai id1 id2 now1 now2 st w Hd).
  pose proof (generateResearchResponse_sends ai (UI.input st) (UI.messages st)
                (UI.attachments st) (UI.modelMode st) w) as Hsend.
  set (req := assembleRequest (UI.input st) (UI.messages st) (UI.attachments st)
                (UI.modelMode st)) in *.
  assert (Hreq1 : only_pdf req) by now apply assembled_only_pdf.
  assert (Hreq2 : starts_with_welcome req).
  { unfold req. rewrite Hm.
    apply (assembled_starts_with_welcome _ first rest k); auto.
    now rewrite <- Hm. }
  assert (Hnext : forall answer w',
            Message.role answer = model ->
            World.api_calls w' = World.api_calls w ++ [req] ->
            session_invariant (submitted id1 now1 st answer) w').
  { intros answer w' Hans Hcalls. unfold session_invariant, submitted.
    cbn [UI.attachments UI.messages]. rewrite Hcalls.
    split; [constructor|]. split.
    - exists first, (rest ++ [userMessage id1 now1 st; answer]), (S k).
      rewrite Hm. repeat split; auto.
      rewrite <- Hm, map_app, Hroles. cbn [map userMessage Message.role].
      rewrite Hans, <- concat_repeat_snoc. reflexivity.
    - split; [apply Forall_app; split; [exact Hpdf | now constructor]|].
      split; [apply Forall_app; split; [exact Hwel | now constructor]|].
      rewrite !length_app, Hlen. simpl. lia. }
  destruct (generateResearchResponse ai (UI.input st) (UI.messages st)
              (UI.attachments st) (UI.modelMode st) w) as [[r|e] w'];
    cbn [snd] in Hsend; eexists; eexists; (split; [reflexivity|]);
    apply Hnext; auto.
Qed.

Lemma handle_keeps ai ev st w :
  session_invariant st w ->
  exists st' w',
    UI.handle ai ev st w = (Returned st', w') /\ session_invariant st' w'.
Proof.
  intros Hinv. destruct ev as [value | key shift id1 id2 now1 now2 | files
                               | idx | mode | id1 id2 now1 now2];
    cbn [UI.handle].
  - eexists; eexists. split; [reflexivity | exact Hinv].
  - destruct (JS.eqb key (js "Enter") && negb shift)%bool.
    + now apply handleSubmit_keeps.
    + eexists; eexists. split; [reflexivity | exact Hinv].
  - destruct files as [files|].
    + rewrite handleFileUpload_spec. eexists; eexists. split; [reflexivity|].
      destruct Hinv as (Hatts & Hmsgs & Hrest).
      split; [|split; [exact Hmsgs | exact Hrest]].
      cbn [UI.attachments]. apply Forall_app. split; [exact Hatts|].
      apply accepted_pdf.
    + eexists; eexists. split; [reflexivity | exact Hinv].
  - eexists; eexists. split; [reflexivity|].
    destruct Hinv as (Hatts & Hmsgs & Hrest).
    split; [|split; [exact Hmsgs | exact Hrest]].
    unfold UI.removeAttachment. cbn [UI.attachments].
    rewrite (filter_from_remove _ _ 0 idx idx eq_refl).
    now apply Forall_remove.
  - eexists; eexists. split; [reflexivity | exact Hinv].
  - now apply handleSubmit_keeps.
Qed.

Lemma session_keeps ai evs : forall st w,
  session_invariant st w ->
  exists st' w',
    UI.session ai evs st w = (Returned st', w') /\ session_invariant st' w'.
Proof.
  induction evs as [|ev evs IH]; intros st w Hinv.
  - exists st, w. split; [reflexivity | exact Hinv].
  - destruct (handle_keeps ai ev st w Hinv) as (st1 & w1 & H1 & Hinv1).
    destruct (IH st1 w1 Hinv1) as (st2 & w2 & H2 & Hinv2).
    exists st2, w2. split; [|exact Hinv2].
    cbn [UI.session]. unfold bind. rewrite H1. exact H2.
Qed.

Lemma initial_invariant now : session_invariant (UI.initialState now) World.empty.
Proof.
  unfold session_invariant, UI.initialState. cbn.
  split; [constructor|]. split.
  - eexists; eexists; exists 0. repeat split.
  - repeat split; constructor.
Qed.

End SessionFacts.

(** X14.  Whatever the user does from the start (typing, keys, uploads,
    removals, modes, submissions) and whatever the API answers: no handler
    throws, every staged attachment is of the PDF type, and every request
    sent holds payloads of the PDF type only. *)
Theorem session_sends_pdfs_only (ai : GoogleGenAI) (evs : list UI.Event)
    (now : N) :
  exists st w,
    UI.session ai evs (UI.initialState now) World.empty = (Returned st, w) /\
    Forall (fun att => Attachment.mimeType att = pdf) (UI.attachments st) /\
    Forall only_pdf (World.api_calls w).
Proof.
  destruct (session_keeps ai evs _ _ (initial_invariant now))
    as (st & w & H & Hatts & _ & Hpdf & _).
  exists st, w. auto.
Qed.

(** X15.  In every session from the start, every request sent has the
    welcome message of the interface as its first content, with the role
    [model], and its roles alternate: [model], [user], ..., [model],
    [user]. *)
Theorem session_requests_start_with_welcome (ai : GoogleGenAI)
    (evs : list UI.Event) (now : N) :
  exists st w,
    UI.session ai evs (UI.initialState now) World.empty = (Returned st, w) /\
    Forall starts_with_welcome (World.api_calls w).
Proof.
  destruct (session_keeps ai evs _ _ (initial_invariant now))
    as (st & w & H & _ & _ & _ & Hwel & _).
  exists st, w. auto.
Qed.

(** X16.  In every session from the start, the messages are the welcome
    message and two messages for each request sent, the one of the user
    and the answer or the apology: a failed request leaves its pair too,
    and an ignored submission leaves nothing. *)
Theorem session_two_messages_per_request (ai : GoogleGenAI)
    (evs : list UI.Event) (now : N) :
  exists st w,
    UI.session ai evs (UI.initialState now) World.empty = (Returned st, w) /\
    length (UI.messages st) = 1 + 2 * length (World.api_calls w) /\
    exists k,
      map Message.role (UI.messages st)
      = model :: concat (repeat [user; model] k).
Proof.
  destruct (session_keeps ai evs _ _ (initial_invariant now))
    as (st & w & H & _ & (first & rest & k & _ & _ & _ & Hroles) & _ & _ & Hlen).
  exists st, w. split; [exact H|]. split; [exact Hlen|].
  exists k. exact Hroles.
Qed.

(* ================================================================= *)
(** * Properties of the rendering of a message *)

Section ReplaceFacts.

Variable r : regex.
Variable repl : MatchResult -> jsstring.

Lemma exec_from_bound s m :
  exec_from r 0 s = Some m -> index m + length (m0 m) <= length s.
Proof.
  intros H.
  apply exec_from_spec in H as (n & rest & Hi & Hn & _ & _ & Hm0).
  simpl in Hi. subst n. rewrite Hm0, length_firstn, length_skipn. lia.
Qed.

(** More fuel than units changes nothing. *)
Lemma replace_all_fuel_enough : forall f1 f2 s,
  length s < f1 -> length s < f2 ->
  replace_all_fuel f1 r repl s = replace_all_fuel f2 r repl s.
Proof.
  induction f1 as [|f1 IH]; intros f2 s H1 H2; [lia|].
  destruct f2 as [|f2]; [lia|]. simpl.
  destruct (exec_from r 0 s) as [m|] eqn:Hm; [|reflexivity].
  pose proof (exec_from_bound s m Hm) as Hb.
  assert (Hafter : length (skipn (index m + length (m0 m)) s)
                   = length s - (index m + length (m0 m)))
    by apply length_skipn.
  destruct (m0 m) as [|x b] eqn:Hm0.
  - destruct (skipn (index m + length (@nil code_unit)) s) as [|c t] eqn:Hs;
      [reflexivity|].
    simpl in Hafter. do 2 f_equal. f_equal. apply IH; lia.
  - do 2 f_equal. cbn [length] in *. apply IH; lia.
Qed.


(** One step of the replacement, at a match that is not empty. *)
Lemma replace_all_step s m :
  exec_from r 0 s = Some m ->
  m0 m <> [] ->
  replace_all r repl s
  = firstn (index m) s ++ repl m
    ++ replace_all r repl (skipn (index m + length (m0 m)) s).
Proof.
  intros Hm Hne. unfold replace_all at 1. simpl. rewrite Hm.
  pose proof (exec_from_bound s m Hm) as Hb.
  destruct (m0 m) as [|x b] eqn:Hm0; [congruence|].
  do 2 f_equal. unfold replace_all.
  apply replace_all_fuel_enough; rewrite length_skipn; cbn [length] in *; lia.
Qed.

End ReplaceFacts.

Section BoldFacts.

Lemma match_here_bold s :
  match_here UI.boldRegex s =
  if startsWith (js "**") s then
    star_lazy dot
      (fun s2 =>
         if startsWith (js "**") s2
         then Some (skipn 2 s2,
                    Some (firstn (length (skipn 2 s) - length s2) (skipn 2 s)))
         else None)
      (skipn 2 s)
  else None.
Proof. reflexivity. Qed.


Lemma startsWith_star_head (c : code_unit) t :
  N.eqb c (ch "*") = false -> startsWith (js "**") (c :: t) = false.
Proof.
  intros H. change (startsWith (js "**") (c :: t))
    with (N.eqb (ch "*") c && startsWith (js "*") t)%bool.
  now rewrite N.eqb_sym, H.
Qed.

(** Where the first bold phrase is found. *)
Lemma bold_match a b c :
  no_star a = true -> plain_phrase b = true ->
  exec_from UI.boldRegex 0 (a ++ js "**" ++ b ++ js "**" ++ c)
  = Some (mkMatch (length a) (js "**" ++ b ++ js "**") (Some b)).
Proof.
  intros Ha Hb.
  set (s := a ++ js "**" ++ b ++ js "**" ++ c).
  assert (Hskip : skipn (length a) s = js "**" ++ b ++ js "**" ++ c).
  { unfold s. now rewrite skipn_app, skipn_all, Nat.sub_diag, skipn_O. }
  assert (Hat : match_here UI.boldRegex (skipn (length a) s)
                = Some (c, Some b)).
  { rewrite Hskip, match_here_bold, startsWith_app.
    change (skipn 2 (js "**" ++ b ++ js "**" ++ c)) with (b ++ js "**" ++ c).
    apply star_lazy_exact.
    - unfold plain_phrase in Hb. rewrite forallb_forall in Hb.
      apply forallb_forall. intros x Hx.
      apply Hb in Hx. now apply andb_true_iff in Hx as [Hx _].
    - rewrite startsWith_app.
      change (skipn 2 (js "**" ++ c)) with c.
      now rewrite firstn_app_minus.
    - intros b1 b2 -> Hne. destruct b2 as [|y b2]; [congruence|].
      unfold plain_phrase in Hb. rewrite forallb_app in Hb.
      apply andb_true_iff in Hb as [_ Hb]. simpl in Hb.
      apply andb_true_iff in Hb as [Hy _].
      apply andb_true_iff in Hy as [_ Hy]. apply negb_true_iff in Hy.
      simpl app. now rewrite (startsWith_star_head y _ Hy). }
  rewrite (exec_from_at UI.boldRegex (length a) s 0 c (Some b)); auto.
  - simpl. do 2 f_equal. rewrite Hskip.
    replace (js "**" ++ b ++ js "**" ++ c)
      with ((js "**" ++ b ++ js "**") ++ c) by now rewrite <- !app_assoc.
    apply firstn_app_minus.
  - intros j Hj. rewrite match_here_bold.
    assert (E : exists y t, skipn j s = y :: t /\ N.eqb y (ch "*") = false).
    { unfold s. rewrite skipn_app.
      replace (j - length a) with 0 by lia. rewrite skipn_O.
      destruct (skipn j a) as [|y t] eqn:Ej.
      - apply (f_equal (@length _)) in Ej. rewrite length_skipn in Ej.
        simpl in Ej. lia.
      - exists y, (t ++ js "**" ++ b ++ js "**" ++ c). split; [reflexivity|].
        assert (Hin : In y a).
        { rewrite <- (firstn_skipn j a), Ej. apply in_or_app. right. now left. }
        unfold no_star, lacks in Ha. rewrite forallb_forall in Ha.
        apply negb_true_iff. now apply Ha. }
    destruct E as (y & t & -> & Hy).
    now rewrite (startsWith_star_head y t Hy).
  - unfold s. rewrite length_app. lia.
Qed.

End BoldFacts.

Section SplitCount.

Lemma split_aux_length sep s : forall cur,
  length (split_aux sep s cur) = S (count_occ N.eq_dec s sep).
Proof.
  induction s as [|c s IH]; intros cur; simpl; [reflexivity|].
  destruct (N.eqb_spec c sep) as [-> | Hne].
  - destruct (N.eq_dec sep sep) as [_|F]; [|congruence].
    simpl. now rewrite IH.
  - destruct (N.eq_dec c sep) as [E|_]; [congruence|]. apply IH.
Qed.

End SplitCount.

(** X17.  [renderFormattedText] gives one element for each line of the
    text, empty lines included: as many elements as the text has line
    feeds, and one; for the empty text, one spacer. *)
Theorem one_element_per_line (text : jsstring) :
  length (UI.renderFormattedText text) = S (count_occ N.eq_dec text LF) /\
  UI.renderFormattedText [] = [UI.spacer].
Proof.
  split; [|reflexivity].
  unfold UI.renderFormattedText, split. rewrite length_map.
  apply split_aux_length.
Qed.



(** X19.  A line that starts with [### ], [## ] or [# ] becomes a heading
    of level 3, 2 or 1 whose text is the rest of the line as it is; the
    bold markers of a heading are not replaced. *)
Theorem heading_text_is_the_rest (t : jsstring) :
  UI.renderLine (js "### " ++ t) = UI.h3 t /\
  UI.renderLine (js "## " ++ t) = UI.h2 t /\
  UI.renderLine (js "# " ++ t) = UI.h1 t.
Proof.
  unfold UI.renderLine.
  rewrite !startsWith_app.
  replace (startsWith (js "### ") (js "## " ++ t)) with false by reflexivity.
  replace (startsWith (js "### ") (js "# " ++ t)) with false by reflexivity.
  replace (startsWith (js "## ") (js "# " ++ t)) with false by reflexivity.
  split; [|split]; reflexivity.
Qed.

(** X20.  In what comes before the first [**] of a line with no asterisk
    before it, nothing changes; the phrase up to the next [**], when it
    holds no asterisk and no line terminator, is put between [<strong>] and
    [</strong>] as it is; and the replacement goes on in the rest. *)
Theorem bold_phrase_is_wrapped (a b c : jsstring) :
  no_star a = true ->
  plain_phrase b = true ->
  replace_all UI.boldRegex UI.strong (a ++ js "**" ++ b ++ js "**" ++ c)
  = a ++ js "<strong>" ++ b ++ js "</strong>"
    ++ replace_all UI.boldRegex UI.strong c.
Proof.
  intros Ha Hb.
  rewrite (replace_all_step UI.boldRegex UI.strong _ _ (bold_match a b c Ha Hb))
    by discriminate.
  cbn [index m0]. unfold UI.strong at 1, UI.group1. cbn [m1].
  rewrite firstn_app, firstn_all, Nat.sub_diag, firstn_O, app_nil_r.
  replace (a ++ js "**" ++ b ++ js "**" ++ c)
    with ((a ++ js "**" ++ b ++ js "**") ++ c) by now rewrite <- !app_assoc.
  replace (length a + length (js "**" ++ b ++ js "**"))
    with (length (a ++ js "**" ++ b ++ js "**")) by now rewrite length_app.
  rewrite skipn_app, skipn_all, Nat.sub_diag, skipn_O, app_nil_l.
  now rewrite <- !app_assoc.
Qed.

Lemma bold_phrase_is_wrapped_witness :
  replace_all UI.boldRegex UI.strong
    (js "See " ++ js "**" ++ js "Page 5" ++ js "**" ++ js " and **more**.")
  = js "See <strong>Page 5</strong> and <strong>more</strong>.".
Proof.
  rewrite (bold_phrase_is_wrapped (js "See ") (js "Page 5")
             (js " and **more**.") eq_refl eq_refl).
  reflexivity.
Defined.

(** X21.  A bullet line that starts with white space keeps its bullet: the
    line is taken for a list item, and the HTML of the item is the whole
    line, bullet included, with its bold phrases replaced. *)
Theorem indented_bullet_keeps_marker (c : code_unit) (rest : jsstring) :
  is_space c = true ->
  (startsWith (js "* ") (trim (c :: rest))
   || startsWith (js "- ") (trim (c :: rest)))%bool = true ->
  UI.renderLine (c :: rest)
  = UI.li (replace_all UI.boldRegex UI.strong (c :: rest)).
Proof.
  intros Hc Hbullet.
  assert (Hne : forall x, is_space x = false -> N.eqb c x = false).
  { intros x Hx. destruct (N.eqb_spec c x) as [-> |]; [congruence | reflexivity]. }
  assert (Hhead : forall x t, is_space x = false ->
            startsWith (x :: t) (c :: rest) = false).
  { intros x t Hx. simpl. now rewrite N.eqb_sym, (Hne x Hx). }
  assert (H3 : startsWith (js "### ") (c :: rest) = false)
    by (apply (Hhead (ch "#") (js "## ")); reflexivity).
  assert (H2 : startsWith (js "## ") (c :: rest) = false)
    by (apply (Hhead (ch "#") (js "# ")); reflexivity).
  assert (H1 : startsWith (js "# ") (c :: rest) = false)
    by (apply (Hhead (ch "#") (js " ")); reflexivity).
  unfold UI.renderLine. rewrite H3, H2, H1, Hbullet.
  unfold UI.stripBullet. destruct rest as [|d rest]; [reflexivity|].
  now rewrite (Hne (ch "*")), (Hne (ch "-")) by reflexivity.
Qed.

Lemma indented_bullet_keeps_marker_witness :
  UI.renderLine (js "  * item")
  = UI.li (replace_all UI.boldRegex UI.strong (js "  * item")).
Proof.
  apply (indented_bullet_keeps_marker (ch " ") (js " * item")); reflexivity.
Defined.

(** X22.  When the block of a response parses to a list that is not empty,
    the answer [handleSubmit] appends shows none of the grounding chunks of
    the response: the list of web sources is there only for a message with
    no evidence. *)
Theorem evidence_hides_web_sources (response : Response.t) (raw : jsstring)
    (m : MatchResult) (c : jsstring) (item : Evidence) (items : list Evidence)
    (w : World.t) (id2 : jsstring) (now2 : N) :
  Response.text response = Some raw ->
  String_match raw jsonBlockRegex = Some m ->
  m1 m = Some c ->
  JSON_parse c = Some (JArray (item :: items)) ->
  exists r,
    extractResponse response w = (Returned r, w) /\
    ResponseResult.groundingChunks r
    = extractGrounding (Response.candidates response) /\
    UI.webSources
      (Message.mk id2 model (ResponseResult.text r) None
         (Some (ResponseResult.groundingChunks r))
         (Some (ResponseResult.evidence r)) now2) = None /\
    UI.shownAnchors
      (Message.mk id2 model (ResponseResult.text r) None
         (Some (ResponseResult.groundingChunks r))
         (Some (ResponseResult.evidence r)) now2) = [].
Proof.
  intros Ht Hm Hc Hp.
  rewrite extractResponse_evidence.
  rewrite (fullText_nonempty _ _ Ht (match_nonempty _ _ Hm)).
  rewrite (extractEvidence_list _ _ _ _ w Hm Hc Hp).
  eexists. split; [reflexivity|]. repeat split.
Qed.

Lemma evidence_hides_web_sources_witness :
  exists r,
    extractResponse
      (Response.mk (Some spec_example)
         (Some [Candidate.mk
                  (Some (GroundingMetadata.mk
                           (Some [GroundingChunk.mk
                                    (Some (WebSource.mk (js "http://u")
                                             (js "T")))])))]))
      World.empty = (Returned r, World.empty) /\
    ResponseResult.groundingChunks r
    = [GroundingChunk.mk (Some (WebSource.mk (js "http://u") (js "T")))] /\
    UI.webSources
      (Message.mk (js "id-2") model (ResponseResult.text r) None
         (Some (ResponseResult.groundingChunks r))
         (Some (ResponseResult.evidence r)) 2) = None /\
    UI.shownAnchors
      (Message.mk (js "id-2") model (ResponseResult.text r) None
         (Some (ResponseResult.groundingChunks r))
         (Some (ResponseResult.evidence r)) 2) = [].
Proof.
  exact (evidence_hides_web_sources
           (Response.mk (Some spec_example)
              (Some [Candidate.mk
                       (Some (GroundingMetadata.mk
                                (Some [GroundingChunk.mk
                                         (Some (WebSource.mk (js "http://u")
                                                  (js "T")))])))]))
           spec_example spec_example_match spec_example_content
           (JObject [(js "claim", JString (js "X"));
                     (js "sourceType", JString (js "web"));
                     (js "sourceName", JString (js "N"));
                     (js "sourceReference", JString (js "http://u"))])
           [] World.empty (js "id-2") 2 eq_refl eq_refl eq_refl eq_refl).
Defined.
